(** * Row selection of the WebUI tables

    A shallow embedding of [webui/react/src/hooks/useSelection.ts] and of the
    selection handler that [webui/react/src/pages/FlatRuns/FlatRuns.tsx]
    carries as a copy, with the properties of the selection engine stated
    over it.

    Numbers are [Z]: record ids, row positions, totals and array lengths are
    integers in every use below.  Arrays are lists.  The hook's [useMemo] and
    [useCallback] values are functions of the hook's [config]; the one effect,
    the call of [config.updateSettings], is explicit state passing over the
    persisted settings. *)

From Stdlib Require Import ZArith List Bool Lia.
From Stdlib Require Import Ascii.
From stdpp Require Import gmap strings list fin_maps.

Open Scope Z_scope.

(** ** Collaborators that the hook imports *)

(** Modelled from the spec: [Loadable] of [hew/utils/loadable] is not under
    this tree.  A slot is either pending or resolved to a value (spec 3);
    [getOrElse] gives the value or the default, [forEach] runs on a resolved
    value only, [filterNotLoaded] keeps the resolved values, in order, that
    pass the optional condition (spec 4.1, "skips pending slots"). *)
Inductive Loadable (T : Type) : Type :=
  | Loaded (data : T)
  | NotLoaded.
Arguments Loaded {T} data.
Arguments NotLoaded {T}.

Module Loadable.
Definition getOrElse {T} (l : Loadable T) (def : T) : T :=
  match l with Loaded d => d | NotLoaded => def end.

(** [Loadable.forEach(l, f)] with the effect of [f] as a state change. *)
Definition forEach {T S} (l : Loadable T) (f : T → S → S) (s : S) : S :=
  match l with Loaded d => f d s | NotLoaded => s end.

Fixpoint filterNotLoaded {T} (a : list (Loadable T)) (condition : T → bool)
  : list T :=
  match a with
  | [] => []
  | Loaded d :: a' =>
      if condition d then d :: filterNotLoaded a' condition
      else filterNotLoaded a' condition
  | NotLoaded :: a' => filterNotLoaded a' condition
  end.

(** The call without a condition. *)
Definition loaded {T} (a : list (Loadable T)) : list T :=
  filterNotLoaded a (λ _, true).
End Loadable.

(** Modelled from the spec: [CompactSelection] is the grid library's class
    (@glideapps/glide-data-grid), not under this tree.  Spec 4.2 describes it:
    an interval-based set of positions with add and remove by position or by
    half-open range.  It is kept as the list of its half-open slices
    [[start, end)]: [hasIndex] asks for [start <= index < end] in one of
    them, and a position argument [i] stands for the slice [[i, i + 1)].
    The library also keeps the list sorted and merged, which changes no
    membership and is left out. *)
Module CompactSelection.
Definition Slice : Type := Z * Z.

(** The argument type [number | Slice]. *)
Inductive arg : Type :=
  | Row (i : Z)
  | Range (s : Slice).

Definition t : Type := list Slice.

Definition empty : t := [].

Definition toSlice (a : arg) : Slice :=
  match a with Row i => (i, i + 1) | Range s => s end.

Definition add (sel : t) (a : arg) : t := sel ++ [toSlice a].

(** What is left of one slice when [[selMin, selMax)] is taken out. *)
Definition cut (selMin selMax : Z) (s : Slice) : list Slice :=
  let '(start, end_) := s in
  if (start <=? selMax) && (selMin <=? end_) then
    (if start <? selMin then [(start, selMin)] else []) ++
    (if selMax <? end_ then [(selMax, end_)] else [])
  else [s].

Definition remove (sel : t) (a : arg) : t :=
  let '(selMin, selMax) := toSlice a in
  flat_map (cut selMin selMax) sel.

Definition inSlice (index : Z) (s : Slice) : bool :=
  (fst s <=? index) && (index <? snd s).

Definition hasIndex (sel : t) (index : Z) : bool :=
  existsb (inSlice index) sel.
End CompactSelection.

Record GridSelection : Type := {
  columns : CompactSelection.t;
  rows : CompactSelection.t;
}.

(** A JavaScript [Set] of numbers: membership, and the insertion order that
    [Array.from] reads back.  [add] of a member changes nothing, [add] of a
    new value appends it, [delete] takes the value out. *)
Module JsSet.
Definition t : Type := list Z.

Definition has (s : t) (x : Z) : bool := bool_decide (x ∈ s).

Definition add (s : t) (x : Z) : t := if has s x then s else s ++ [x].

Definition delete (s : t) (x : Z) : t :=
  List.filter (λ y, negb (y =? x)) s.

(** [new Set(array)] *)
Definition new (a : list Z) : t := fold_left add a [].

(** [Array.from(set)] *)
Definition toArray (s : t) : list Z := s.
End JsSet.

(** JavaScript's [Array.prototype.slice(start, end)]: a negative bound counts
    from the end, both bounds are clamped to the array. *)
Definition relativeIndex (len k : Z) : Z :=
  if k <? 0 then Z.max (len + k) 0 else Z.min k len.

Definition slice {A} (a : list A) (start end_ : Z) : list A :=
  let len := Z.of_nat (length a) in
  let from := relativeIndex len start in
  let final := relativeIndex len end_ in
  take (Z.to_nat (final - from)) (drop (Z.to_nat from) a).

(** [Array.prototype.forEach((x, index) => ...)] over a state. *)
Fixpoint forEachIndexed {A S} (f : A → Z → S → S) (a : list A) (index : Z) (s : S)
  : S :=
  match a with
  | [] => s
  | x :: a' => forEachIndexed f a' (index + 1) (f x index s)
  end.

(** ** The selection state *)

(** [SelectionType] of [types]: [{ type: 'ONLY_IN', selections }] or
    [{ type: 'ALL_EXCEPT', exclusions }]. *)
Inductive SelectionState : Type :=
  | ONLY_IN (selections : list Z)
  | ALL_EXCEPT (exclusions : list Z).

Definition DEFAULT_SELECTION : SelectionState := ONLY_IN [].

(** The gestures of the grid: [SelectionType | RangelessSelectionType]. *)
Inductive SelectionType : Type :=
  | T_add
  | T_add_all
  | T_remove
  | T_remove_all
  | T_set.

(** The persisted settings are a string-keyed object; [selection] is one of
    its fields. *)
Inductive SettingValue : Type :=
  | VBool (b : bool)
  | VNumber (n : Z)
  | VString (s : string)
  | VStrings (l : list string)
  | VWidths (w : list (string * Z))
  | VSelection (s : SelectionState).

Abbreviation Settings := (gmap string SettingValue).

Class HasId (T : Type) : Type := id : T → Z.

Record IndexedRecord (T : Type) : Type := {
  record : T;
  index : Z;
}.
Arguments record {T} _.
Arguments index {T} _.

Record SelectionConfig (T : Type) : Type := {
  records : list (Loadable T);
  selection : SelectionState;
  total : Loadable Z;
  updateSettings : Settings → Settings → Settings;
}.
Arguments records {T} _.
Arguments selection {T} _.
Arguments total {T} _.
Arguments updateSettings {T} _.

(** ** The hook [useSelection] *)

Section useSelection.
Context {T : Type} `{HasId T}.
Variable config : SelectionConfig T.

(** The callback of [config.records.forEach] in [loadedRecordIdMap]. *)
Definition setRecord (r : Loadable T) (index : Z)
    (recordMap : gmap Z (IndexedRecord T)) : gmap Z (IndexedRecord T) :=
  Loadable.forEach r
    (λ record recordMap,
      <[id record := {| index := index; record := record |}]> recordMap)
    recordMap.

Definition loadedRecordIdMap : gmap Z (IndexedRecord T) :=
  forEachIndexed setRecord (records config) 0 ∅.

Definition selectedRecordIdSet : JsSet.t :=
  match selection config with
  | ONLY_IN selections => JsSet.new selections
  | ALL_EXCEPT exclusions =>
      let excludedSet := JsSet.new exclusions in
      JsSet.new
        (map id
           (Loadable.filterNotLoaded (records config)
              (λ record, negb (JsSet.has excludedSet (id record)))))
  end.

Definition dataGridSelection : GridSelection :=
  let rows := CompactSelection.empty in
  let rows :=
    match selection config with
    | ONLY_IN selections =>
        fold_left
          (λ rows id_,
            match index <$> loadedRecordIdMap !! id_ with
            | Some incIndex => CompactSelection.add rows (CompactSelection.Row incIndex)
            | None => rows
            end)
          selections rows
    | ALL_EXCEPT exclusions =>
        let rows :=
          CompactSelection.add rows
            (CompactSelection.Range (0, Loadable.getOrElse (total config) 1 - 1)) in
        fold_left
          (λ rows exc,
            match index <$> loadedRecordIdMap !! exc with
            | Some excIndex => CompactSelection.remove rows (CompactSelection.Row excIndex)
            | None => rows
            end)
          exclusions rows
    end in
  {| columns := CompactSelection.empty; rows := rows |}.

Definition loadedSelectedRecords : list T :=
  Loadable.filterNotLoaded (records config)
    (λ record, JsSet.has selectedRecordIdSet (id record)).

Definition loadedSelectedRecordIds : list Z :=
  map id loadedSelectedRecords.

Definition selectionSize : Z :=
  match selection config with
  | ONLY_IN selections => Z.of_nat (length selections)
  | ALL_EXCEPT exclusions =>
      Loadable.getOrElse (total config) 0 - Z.of_nat (length exclusions)
  end.

Definition rowRangeToIds (range : Z * Z) : list Z :=
  let slice_ := slice (records config) (fst range) (snd range) in
  map id (Loadable.loaded slice_).

(** The value of [newSettings] when control reaches the call of
    [updateSettings]; [None] when the handler returns before it
    ([if (!range) return]). *)
Definition newSettings (selectionType : SelectionType) (range : option (Z * Z))
  : option SelectionState :=
  let newSettings := selection config in
  match selectionType with
  | T_add =>
      match range with
      | None => None
      | Some range =>
          Some
            match newSettings with
            | ALL_EXCEPT exclusions =>
                let excludedSet := JsSet.new exclusions in
                let excludedSet :=
                  fold_left JsSet.delete (rowRangeToIds range) excludedSet in
                ALL_EXCEPT (JsSet.toArray excludedSet)
            | ONLY_IN selections =>
                let includedSet := JsSet.new selections in
                let includedSet :=
                  fold_left JsSet.add (rowRangeToIds range) includedSet in
                ONLY_IN (JsSet.toArray includedSet)
            end
      end
  | T_add_all => Some (ALL_EXCEPT [])
  | T_remove =>
      match range with
      | None => None
      | Some range =>
          Some
            match newSettings with
            | ALL_EXCEPT exclusions =>
                let excludedSet := JsSet.new exclusions in
                let excludedSet :=
                  fold_left JsSet.add (rowRangeToIds range) excludedSet in
                ALL_EXCEPT (JsSet.toArray excludedSet)
            | ONLY_IN selections =>
                let includedSet := JsSet.new selections in
                let includedSet :=
                  fold_left JsSet.delete (rowRangeToIds range) includedSet in
                ONLY_IN (JsSet.toArray includedSet)
            end
      end
  | T_remove_all => Some DEFAULT_SELECTION
  | T_set =>
      match range with
      | None => None
      | Some range => Some (ONLY_IN (rowRangeToIds range))
      end
  end.

(** The object handed to [updateSettings]: [{ selection: newSettings }]. *)
Definition selectionUpdate (s : SelectionState) : Settings :=
  {[ "selection"%string := VSelection s ]}.

Definition handleSelectionChange
    (selectionType : SelectionType) (range : option (Z * Z))
    (settings : Settings) : Settings :=
  match newSettings selectionType range with
  | None => settings
  | Some s => updateSettings config (selectionUpdate s) settings
  end.

Definition isRangeSelected (range : Z * Z) : bool :=
  match selection config with
  | ONLY_IN selections =>
      let includedSet := JsSet.new selections in
      forallb (λ id_, JsSet.has includedSet id_) (rowRangeToIds range)
  | ALL_EXCEPT exclusions =>
      let excludedSet := JsSet.new exclusions in
      forallb (λ id_, negb (JsSet.has excludedSet id_)) (rowRangeToIds range)
  end.
End useSelection.

(** ** The settings collaborator *)

(** Modelled from the spec: the settings store ([stores/userSettings]) is not
    under this tree.  [setPartial] is a shallow merge of the partial object
    into the stored one (the partial object's keys win), as FlatRuns.tsx
    merges the stored settings over the defaults at lines 150-156; a stored
    object without a well-formed [selection] reads as the default empty
    selection (spec 6, "fail closed"). *)
Definition setPartial (p stored : Settings) : Settings := p ∪ stored.

Definition storedSelection (stored : Settings) : SelectionState :=
  match stored !! "selection"%string with
  | Some (VSelection s) => s
  | _ => DEFAULT_SELECTION
  end.

(** The owner of the hook renders it from the loaded window, the total and
    the stored settings. *)
Definition render {T} (records : list (Loadable T)) (total : Loadable Z)
    (stored : Settings) : SelectionConfig T :=
  {| records := records;
     selection := storedSelection stored;
     total := total;
     updateSettings := setPartial |}.

(** ** The page [FlatRuns], which carries its own copy of the handler *)

Module FlatRuns.
Section FlatRuns.
Context {FlatRun : Type} `{HasId FlatRun}.
Variable runs : list (Loadable FlatRun).

Definition updateSettings (p stored : Settings) : Settings :=
  setPartial p stored.

Definition rowRangeToIds (range : Z * Z) : list Z :=
  let slice_ := slice runs (fst range) (snd range) in
  map id (Loadable.loaded slice_).

(** [newSettings] at the call of [updateSettings], from [settings.selection];
    [None] when the handler returns before the call. *)
Definition newSettings (settings_selection : SelectionState)
    (selectionType : SelectionType) (range : option (Z * Z))
  : option SelectionState :=
  let newSettings := settings_selection in
  match selectionType with
  | T_add =>
      match range with
      | None => None
      | Some range =>
          Some
            match newSettings with
            | ALL_EXCEPT exclusions =>
                let excludedSet := JsSet.new exclusions in
                let excludedSet :=
                  fold_left JsSet.delete (rowRangeToIds range) excludedSet in
                ALL_EXCEPT (JsSet.toArray excludedSet)
            | ONLY_IN selections =>
                let includedSet := JsSet.new selections in
                let includedSet :=
                  fold_left JsSet.add (rowRangeToIds range) includedSet in
                ONLY_IN (JsSet.toArray includedSet)
            end
      end
  | T_add_all => Some (ALL_EXCEPT [])
  | T_remove =>
      match range with
      | None => None
      | Some range =>
          Some
            match newSettings with
            | ALL_EXCEPT exclusions =>
                let excludedSet := JsSet.new exclusions in
                let excludedSet :=
                  fold_left JsSet.add (rowRangeToIds range) excludedSet in
                ALL_EXCEPT (JsSet.toArray excludedSet)
            | ONLY_IN selections =>
                let includedSet := JsSet.new selections in
                let includedSet :=
                  fold_left JsSet.delete (rowRangeToIds range) includedSet in
                ONLY_IN (JsSet.toArray includedSet)
            end
      end
  | T_remove_all => Some DEFAULT_SELECTION
  | T_set =>
      match range with
      | None => None
      | Some range => Some (ONLY_IN (rowRangeToIds range))
      end
  end.

Definition handleSelectionChange
    (selectionType : SelectionType) (range : option (Z * Z))
    (stored : Settings) : Settings :=
  match newSettings (storedSelection stored) selectionType range with
  | None => stored
  | Some s => updateSettings {[ "selection"%string := VSelection s ]} stored
  end.
End FlatRuns.
End FlatRuns.

(** ** Vocabulary of the statements *)

(** The ids a state tracks, as stored. *)
Definition trackedIds (s : SelectionState) : list Z :=
  match s with ONLY_IN l => l | ALL_EXCEPT l => l end.

(** Membership of an id in the effective selection: listed for [ONLY_IN],
    not listed for [ALL_EXCEPT]. *)
Definition isSelectedId (s : SelectionState) (k : Z) : bool :=
  match s with
  | ONLY_IN selections => bool_decide (k ∈ selections)
  | ALL_EXCEPT exclusions => negb (bool_decide (k ∈ exclusions))
  end.

(** The stored array with repeated ids dropped, which is what a round trip
    through a JavaScript [Set] leaves. *)
Definition deduplicated (s : SelectionState) : SelectionState :=
  match s with
  | ONLY_IN l => ONLY_IN (JsSet.toArray (JsSet.new l))
  | ALL_EXCEPT l => ALL_EXCEPT (JsSet.toArray (JsSet.new l))
  end.

(** The ids of the loaded records of a window, in window order. *)
Definition loadedIds {T} `{HasId T} (records : list (Loadable T)) : list Z :=
  map id (Loadable.loaded records).

(** ** A window for the concrete scenarios *)

Record Run : Type := {
  run_id : Z;
  run_name : string;
}.

#[export] Instance Run_HasId : HasId Run := run_id.

Definition run (k : Z) : Loadable Run :=
  Loaded {| run_id := k; run_name := "run" |}.

(** Five loaded records with ids 10..14 at positions 0..4. *)
Definition window5 : list (Loadable Run) :=
  [run 10; run 11; run 12; run 13; run 14].

(** Apply one gesture of the grid to the hook as its owner renders it. *)
Definition hookStep {T} `{HasId T} (records : list (Loadable T))
    (total : Loadable Z) (selectionType : SelectionType)
    (range : option (Z * Z)) (stored : Settings) : Settings :=
  handleSelectionChange (render records total stored) selectionType range stored.

(** ** The rest of the page [FlatRuns] *)

(** A JavaScript [Map] with number keys, in insertion order: [set] of a key
    that is present replaces its value in place, [set] of a new key appends
    the entry; [forEach] visits the values in that order. *)
Module JsMap.
Section JsMap.
Context {V : Type}.

Definition t : Type := list (Z * V).

Fixpoint set (m : t) (k : Z) (v : V) : t :=
  match m with
  | [] => [(k, v)]
  | (k', v') :: m' =>
      if k' =? k then (k, v) :: m' else (k', v') :: set m' k v
  end.

Fixpoint get (m : t) (k : Z) : option V :=
  match m with
  | [] => None
  | (k', v') :: m' => if k' =? k then Some v' else get m' k
  end.

Definition keys (m : t) : list Z := map fst m.

Definition values (m : t) : list V := map snd m.
End JsMap.
Arguments t : clear implicits.
End JsMap.

(** [String.prototype.split(separator)] for a one-character separator, and
    [Array.prototype.join(separator)]. *)
Fixpoint split (sep : ascii) (s : string) : list string :=
  match s with
  | EmptyString => [EmptyString]
  | String c s' =>
      if Ascii.eqb c sep then EmptyString :: split sep s'
      else
        match split sep s' with
        | [] => [String c EmptyString]
        | piece :: pieces => String c piece :: pieces
        end
  end.

Fixpoint join (sep : string) (a : list string) : string :=
  match a with
  | [] => EmptyString
  | x :: a' =>
      match a' with
      | [] => x
      | _ :: _ => x +:+ sep +:+ join sep a'
      end
  end.

Inductive DirectionType : Type :=
  | asc
  | desc.

(** [Sort] of the grid: both fields may be [undefined]. *)
Record Sort : Type := {
  column : option string;
  direction : option DirectionType;
}.

(** The codec [validSort] accepts a sort whose column is a string and whose
    direction is one of the two directions. *)
Definition validSort_is (s : Sort) : bool :=
  match column s, direction s with
  | Some _, Some _ => true
  | _, _ => false
  end.

(** What a template literal prints for the two fields ([undefined] prints as
    the word). *)
Definition columnText (c : option string) : string :=
  match c with Some c => c | None => "undefined" end.

Definition directionText (d : option DirectionType) : string :=
  match d with
  | Some asc => "asc"
  | Some desc => "desc"
  | None => "undefined"
  end.

Definition makeSortString (sorts : list Sort) : string :=
  join "," (map (λ s, columnText (column s) +:+ "=" +:+ directionText (direction s)) sorts).

(** The state of the page that the handlers below read and write: the stored
    settings, the window of runs, the page number of the URL, the sorts and
    the loading flag. *)
Record PageState (FlatRun : Type) : Type := {
  stored : Settings;
  runs : list (Loadable FlatRun);
  page : Z;
  sorts : list Sort;
  isLoading : bool;
}.
Arguments stored {FlatRun} _.
Arguments runs {FlatRun} _.
Arguments page {FlatRun} _.
Arguments sorts {FlatRun} _.
Arguments isLoading {FlatRun} _.

(** How a handler ends: it returns, or [Array(n)] throws a [RangeError] for
    a negative length, with the state written up to then. *)
Inductive Outcome (S : Type) : Type :=
  | Returned (s : S)
  | RangeError (s : S).
Arguments Returned {S} s.
Arguments RangeError {S} s.

Module FlatRunsPage.
Section FlatRunsPage.
Context {FlatRun : Type} `{HasId FlatRun}.
(** [EMPTY_SORT] is imported from the grid. *)
Variable EMPTY_SORT : Sort.

Definition PAGE_SIZE : Z := 100.

Definition INITIAL_LOADING_RUNS : list (Loadable FlatRun) :=
  replicate (Z.to_nat PAGE_SIZE) NotLoaded.

Definition parseSortString (sortString : string) : list Sort :=
  if bool_decide (sortString = EmptyString) then [EMPTY_SORT]
  else
    let components := split ","%char sortString in
    map
      (λ c,
        let parts := take 2 (split "="%char c) in
        let column := parts !! 0%nat in
        let direction := parts !! 1%nat in
        {| column := column;
           direction :=
             match direction with
             | Some d =>
                 if bool_decide (d = "asc"%string) then Some asc
                 else if bool_decide (d = "desc"%string) then Some desc
                 else None
             | None => None
             end |})
      components.

(** The callback of [runs.forEach] in the memo of [loadedSelectedRuns]: the
    state is the pair of [selectedArray] and [selectedMap]. *)
Definition selectRun (selectedIdSet : JsSet.t)
    (r : Loadable FlatRun) (index : Z)
    (acc : list FlatRun * JsMap.t (IndexedRecord FlatRun))
  : list FlatRun * JsMap.t (IndexedRecord FlatRun) :=
  Loadable.forEach r
    (λ run_ '(selectedArray, selectedMap),
      if JsSet.has selectedIdSet (id run_) then
        (selectedArray ++ [run_],
         JsMap.set selectedMap (id run_) {| index := index; record := run_ |})
      else (selectedArray, selectedMap))
    acc.

(** The memo [[loadedSelectedRuns, loadedSelectedRunIds]]. *)
Definition loadedSelected (isLoadingSettings : bool)
    (settings_selection : SelectionState) (runs : list (Loadable FlatRun))
  : list FlatRun * JsMap.t (IndexedRecord FlatRun) :=
  let selectedMap : JsMap.t (IndexedRecord FlatRun) := [] in
  let selectedArray : list FlatRun := [] in
  if isLoadingSettings then (selectedArray, selectedMap)
  else
    let selectedIdSet :=
      JsSet.new
        match settings_selection with
        | ONLY_IN selections => selections
        | ALL_EXCEPT _ => []
        end in
    forEachIndexed (selectRun selectedIdSet) runs 0 (selectedArray, selectedMap).

Definition loadedSelectedRuns (isLoadingSettings : bool)
    (settings_selection : SelectionState) (runs : list (Loadable FlatRun))
  : list FlatRun :=
  fst (loadedSelected isLoadingSettings settings_selection runs).

Definition loadedSelectedRunIds (isLoadingSettings : bool)
    (settings_selection : SelectionState) (runs : list (Loadable FlatRun))
  : JsMap.t (IndexedRecord FlatRun) :=
  snd (loadedSelected isLoadingSettings settings_selection runs).

(** The memo [selection] of the page. *)
Definition selection (isLoadingSettings : bool)
    (settings_selection : SelectionState) (runs : list (Loadable FlatRun))
  : GridSelection :=
  let rows :=
    fold_left
      (λ rows info, CompactSelection.add rows (CompactSelection.Row (index info)))
      (JsMap.values (loadedSelectedRunIds isLoadingSettings settings_selection runs))
      CompactSelection.empty in
  {| columns := CompactSelection.empty; rows := rows |}.

(** [sortString], the memo over the [sorts] of the state. *)
Definition sortString (st : PageState FlatRun) : string :=
  makeSortString (List.filter validSort_is (sorts st)).

Definition onPageChange (cPage cPageSize : Z) (st : PageState FlatRun)
  : Outcome (PageState FlatRun) :=
  let stored' :=
    FlatRuns.updateSettings {[ "pageLimit"%string := VNumber cPageSize ]} (stored st) in
  if bool_decide (cPage - 1 ≠ page st) then
    if cPageSize <? 0 then
      RangeError
        {| stored := stored'; runs := runs st; page := page st;
           sorts := sorts st; isLoading := isLoading st |}
    else
      Returned
        {| stored := stored';
           runs := replicate (Z.to_nat cPageSize) NotLoaded;
           page := cPage - 1;
           sorts := sorts st; isLoading := isLoading st |}
  else
    Returned
      {| stored := stored'; runs := runs st; page := cPage - 1;
         sorts := sorts st; isLoading := isLoading st |}.

Definition resetPagination (st : PageState FlatRun) : PageState FlatRun :=
  {| stored := stored st; runs := INITIAL_LOADING_RUNS; page := 0;
     sorts := sorts st; isLoading := true |}.

(** The subscriber of the filter form: [formset] holds the JSON text of the
    form set when it is loaded. *)
Definition onFilterChange (formset : Loadable string) (st : PageState FlatRun)
  : PageState FlatRun :=
  let st := resetPagination st in
  Loadable.forEach formset
    (λ formSet st,
      {| stored :=
           FlatRuns.updateSettings
             ({[ "filterset"%string := VString formSet ]}
              ∪ {[ "selection"%string := VSelection DEFAULT_SELECTION ]})
             (stored st);
         runs := runs st; page := page st; sorts := sorts st;
         isLoading := isLoading st |})
    st.

Definition handleSortChange (sorts_ : list Sort) (st : PageState FlatRun)
  : PageState FlatRun :=
  let newSortString := makeSortString (List.filter validSort_is sorts_) in
  let st' :=
    {| stored := stored st; runs := runs st; page := page st;
       sorts := sorts_; isLoading := isLoading st |} in
  let st' :=
    if bool_decide (newSortString ≠ sortString st) then resetPagination st'
    else st' in
  {| stored :=
       FlatRuns.updateSettings
         {[ "sortString"%string := VString newSortString ]} (stored st');
     runs := runs st'; page := page st'; sorts := sorts st';
     isLoading := isLoading st' |}.

(** The gesture handler on the state of the page. *)
Definition handleSelectionChange (selectionType : SelectionType)
    (range : option (Z * Z)) (st : PageState FlatRun) : PageState FlatRun :=
  {| stored := FlatRuns.handleSelectionChange (runs st) selectionType range (stored st);
     runs := runs st; page := page st; sorts := sorts st;
     isLoading := isLoading st |}.
End FlatRunsPage.
End FlatRunsPage.

(** The page's map of selected runs against the hook's map of records: the
    page's map has the entries of the hook's map whose id is in the set. *)
Definition tracks {T} (selectedIdSet : JsSet.t)
    (jm : JsMap.t (IndexedRecord T)) (gm : gmap Z (IndexedRecord T)) : Prop :=
  ∀ k, JsMap.get jm k = if JsSet.has selectedIdSet k then gm !! k else None.

(** [String.prototype.includes] for one character. *)
Fixpoint includes (s : string) (c : ascii) : bool :=
  match s with
  | EmptyString => false
  | String c' s' => Ascii.eqb c' c || includes s' c
  end.

(** A sort that [makeSortString] prints without ambiguity: both fields are
    set and the column holds neither of the two separators. *)
Definition plainSort (s : Sort) : bool :=
  match column s, direction s with
  | Some c, Some _ => negb (includes c ",") && negb (includes c "=")
  | _, _ => false
  end.

(** * Properties *)

(** ** JavaScript sets *)

Module JsSetFacts.
Import JsSet.

Lemma has_true (s : t) x : has s x = true ↔ x ∈ s.
Proof. unfold has. by rewrite bool_decide_eq_true. Qed.

Lemma has_false (s : t) x : has s x = false ↔ x ∉ s.
Proof. unfold has. by rewrite bool_decide_eq_false. Qed.

Lemma add_member (s : t) x : x ∈ s → add s x = s.
Proof. intros Hx. unfold add. by rewrite (proj2 (has_true s x) Hx). Qed.

Lemma add_fresh (s : t) x : x ∉ s → add s x = s ++ [x].
Proof. intros Hx. unfold add. by rewrite (proj2 (has_false s x) Hx). Qed.

Lemma elem_of_add (s : t) x y : y ∈ add s x ↔ y ∈ s ∨ y = x.
Proof.
  destruct (decide (x ∈ s)) as [Hx | Hx].
  - rewrite add_member by done. split; [tauto | intros [? | ->]; done].
  - rewrite add_fresh by done. rewrite elem_of_app, list_elem_of_singleton. tauto.
Qed.

Lemma NoDup_add (s : t) x : NoDup s → NoDup (add s x).
Proof.
  intros Hs. destruct (decide (x ∈ s)) as [Hx | Hx].
  - by rewrite add_member.
  - rewrite add_fresh by done. apply NoDup_app. split; [done |].
    split; [| apply NoDup_singleton].
    intros y Hy Hy'. apply list_elem_of_singleton in Hy'. by subst.
Qed.

Lemma elem_of_fold_add (a : list Z) (s : t) y :
  y ∈ fold_left add a s ↔ y ∈ s ∨ y ∈ a.
Proof.
  revert s. induction a as [| x a IH]; intros s; simpl.
  - rewrite elem_of_nil. tauto.
  - rewrite IH, elem_of_add, elem_of_cons. tauto.
Qed.

Lemma NoDup_fold_add (a : list Z) (s : t) : NoDup s → NoDup (fold_left add a s).
Proof.
  revert s. induction a as [| x a IH]; intros s Hs; simpl; [done |].
  by apply IH, NoDup_add.
Qed.

Lemma fold_add_members (a : list Z) (s : t) :
  (∀ x, x ∈ a → x ∈ s) → fold_left add a s = s.
Proof.
  induction a as [| x a IH]; intros Ha; simpl; [done |].
  rewrite add_member by (apply Ha; left).
  apply IH. intros y Hy. apply Ha. by right.
Qed.

Lemma fold_add_NoDup_app (a : list Z) (s : t) :
  NoDup (s ++ a) → fold_left add a s = s ++ a.
Proof.
  revert s. induction a as [| x a IH]; intros s Hs; simpl.
  - by rewrite app_nil_r.
  - assert (Hx : x ∉ s).
    { apply NoDup_app in Hs as (_ & Hs & _). intros Hx.
      apply (Hs x Hx). left. }
    rewrite add_fresh by done.
    rewrite IH; rewrite <- app_assoc; done.
Qed.

Lemma elem_of_new (a : list Z) y : y ∈ new a ↔ y ∈ a.
Proof. unfold new. rewrite elem_of_fold_add, elem_of_nil. tauto. Qed.

Lemma NoDup_new (a : list Z) : NoDup (new a).
Proof. apply NoDup_fold_add, NoDup_nil_2. Qed.

Lemma new_NoDup (a : list Z) : NoDup a → new a = a.
Proof. intros Ha. unfold new. by rewrite fold_add_NoDup_app. Qed.

Lemma has_new (a : list Z) x : has (new a) x = bool_decide (x ∈ a).
Proof. unfold has. apply bool_decide_ext, elem_of_new. Qed.

Lemma elem_of_delete (s : t) x y : y ∈ delete s x ↔ y ∈ s ∧ y ≠ x.
Proof.
  unfold delete. rewrite !list_elem_of_In, filter_In.
  rewrite negb_true_iff, Z.eqb_neq. tauto.
Qed.

Lemma NoDup_delete (s : t) x : NoDup s → NoDup (delete s x).
Proof.
  intros Hs. apply NoDup_ListNoDup. apply List.NoDup_filter.
  by apply NoDup_ListNoDup.
Qed.

Lemma delete_absent (s : t) x : x ∉ s → delete s x = s.
Proof.
  unfold delete. induction s as [| y s IH]; intros Hx; simpl; [done |].
  apply not_elem_of_cons in Hx as [Hxy Hx].
  destruct (Z.eqb_spec y x) as [-> | _]; [done |]. simpl. by rewrite IH.
Qed.

Lemma elem_of_fold_delete (a : list Z) (s : t) y :
  y ∈ fold_left delete a s ↔ y ∈ s ∧ y ∉ a.
Proof.
  revert s. induction a as [| x a IH]; intros s; simpl.
  - rewrite elem_of_nil. tauto.
  - rewrite IH, elem_of_delete, not_elem_of_cons. tauto.
Qed.

Lemma NoDup_fold_delete (a : list Z) (s : t) :
  NoDup s → NoDup (fold_left delete a s).
Proof.
  revert s. induction a as [| x a IH]; intros s Hs; simpl; [done |].
  by apply IH, NoDup_delete.
Qed.

Lemma fold_delete_absent (a : list Z) (s : t) :
  (∀ x, x ∈ a → x ∉ s) → fold_left delete a s = s.
Proof.
  induction a as [| x a IH]; intros Ha; simpl; [done |].
  rewrite delete_absent by (apply Ha; left).
  apply IH. intros y Hy. apply Ha. by right.
Qed.
End JsSetFacts.

(** ** The interval set of the grid *)

Module CompactSelectionFacts.
Import CompactSelection.

Lemma hasIndex_empty i : hasIndex empty i = false.
Proof. reflexivity. Qed.

Lemma hasIndex_add (sel : t) (a : arg) i :
  hasIndex (add sel a) i = hasIndex sel i || inSlice i (toSlice a).
Proof.
  unfold hasIndex, add. rewrite existsb_app. simpl. by rewrite orb_false_r.
Qed.

Lemma inSlice_true i (s : Slice) : inSlice i s = true ↔ fst s <= i < snd s.
Proof. unfold inSlice. rewrite andb_true_iff, Z.leb_le, Z.ltb_lt. tauto. Qed.

Lemma hasIndex_cut (j i : Z) (s : Slice) :
  hasIndex (cut j (j + 1) s) i = inSlice i s && negb (i =? j).
Proof.
  destruct s as [a b]. unfold hasIndex, cut, inSlice. simpl.
  destruct (Z.leb_spec a (j + 1)), (Z.leb_spec j b),
    (Z.ltb_spec a j), (Z.ltb_spec (j + 1) b); simpl;
    unfold inSlice; simpl;
    destruct (Z.leb_spec a i), (Z.ltb_spec i b), (Z.eqb_spec i j); simpl;
    try reflexivity; try lia;
    repeat match goal with
      | |- context [?x <=? ?y] => destruct (Z.leb_spec x y); simpl
      | |- context [?x <? ?y] => destruct (Z.ltb_spec x y); simpl
      end; try reflexivity; lia.
Qed.

Lemma hasIndex_remove_row (sel : t) (j i : Z) :
  hasIndex (remove sel (Row j)) i = hasIndex sel i && negb (i =? j).
Proof.
  unfold remove. simpl. induction sel as [| s sel IH]; [done |].
  simpl. change (existsb (inSlice i) ?l) with (hasIndex l i).
  unfold hasIndex at 1. rewrite existsb_app.
  change (existsb (inSlice i) ?l) with (hasIndex l i).
  rewrite IH, hasIndex_cut. simpl.
  destruct (inSlice i s), (hasIndex sel i), (i =? j); reflexivity.
Qed.
End CompactSelectionFacts.

(** ** The settings collaborator *)

Lemma storedSelection_setPartial (s : SelectionState) (stored : Settings) :
  storedSelection (setPartial (selectionUpdate s) stored) = s.
Proof.
  unfold storedSelection, setPartial, selectionUpdate.
  rewrite (lookup_union_Some_l _ _ _ (VSelection s)); [done |].
  apply lookup_singleton_eq.
Qed.

Lemma setPartial_frame (s : SelectionState) (stored : Settings) (k : string) :
  k ≠ "selection"%string →
  setPartial (selectionUpdate s) stored !! k = stored !! k.
Proof.
  intros Hk. unfold setPartial, selectionUpdate.
  rewrite lookup_union_r; [done |]. by apply lookup_singleton_ne.
Qed.

Lemma dom_selectionUpdate (s : SelectionState) :
  dom (selectionUpdate s) = ({[ "selection"%string ]} : gset string).
Proof. unfold selectionUpdate. apply dom_singleton_L. Qed.

(** ** Size of the selection *)

(** C3 (as amended): the size of an [ONLY_IN] state is the length of its
    array of ids; with the total [N] loaded, the size of an [ALL_EXCEPT]
    state is [N] minus the length of its array of ids, with no clamping. *)
Theorem selectionSize_spec {T} `{HasId T}
    (records : list (Loadable T)) (ids : list Z) (total : Loadable Z) (N : Z)
    (upd : Settings → Settings → Settings) :
  selectionSize {| records := records; selection := ONLY_IN ids;
                   total := total; updateSettings := upd |}
    = Z.of_nat (length ids)
  ∧ selectionSize {| records := records; selection := ALL_EXCEPT ids;
                     total := Loaded N; updateSettings := upd |}
    = N - Z.of_nat (length ids).
Proof. split; reflexivity. Qed.

(** C3 fails as stated: with two rows in total and three excluded ids the
    reported size is -1, not max(0, 2 - 3) = 0. *)
Lemma selectionSize_not_clamped :
  let config :=
    render [run 10; run 11] (Loaded 2) (selectionUpdate (ALL_EXCEPT [10; 11; 12])) in
  selectionSize config = -1
  ∧ selectionSize config ≠ Z.max 0 (2 - Z.of_nat (length [10; 11; 12])).
Proof. split; [reflexivity | discriminate]. Qed.

(** C5 (as amended): when the state tracks at most [N] ids and the total [N]
    is loaded, the reported size lies between 0 and [N]. *)
Theorem selectionSize_bounds {T} `{HasId T} (config : SelectionConfig T) (N : Z) :
  total config = Loaded N →
  Z.of_nat (length (trackedIds (selection config))) <= N →
  0 <= selectionSize config <= N.
Proof.
  unfold selectionSize. intros -> Hk.
  destruct (selection config) as [l | l]; simpl in *; lia.
Qed.

Lemma selectionSize_bounds_witness :
  0 <= selectionSize
         (render window5 (Loaded 5) (selectionUpdate (ALL_EXCEPT [11]))) <= 5.
Proof.
  apply (selectionSize_bounds
           (render window5 (Loaded 5) (selectionUpdate (ALL_EXCEPT [11]))) 5).
  - reflexivity.
  - vm_compute. discriminate.
Defined.

(** C5 fails as stated: three selected ids against a total of two rows give
    size 3, above the total. *)
Lemma selectionSize_above_total :
  let config :=
    render [run 10; run 11] (Loaded 2) (selectionUpdate (ONLY_IN [10; 11; 12])) in
  ¬ (0 <= selectionSize config <= 2).
Proof. vm_compute. intros [_ Hle]. by apply Hle. Qed.

(** C9: while the total is not loaded, the size of an [ALL_EXCEPT] state with
    [k] exclusions is [0 - k], which is negative as soon as [k > 0]. *)
Theorem selectionSize_total_not_loaded {T} `{HasId T}
    (records : list (Loadable T)) (exclusions : list Z)
    (upd : Settings → Settings → Settings) :
  let config := {| records := records; selection := ALL_EXCEPT exclusions;
                   total := NotLoaded; updateSettings := upd |} in
  selectionSize config = 0 - Z.of_nat (length exclusions)
  ∧ ((0 < length exclusions)%nat → selectionSize config < 0).
Proof.
  simpl. split; [reflexivity |]. unfold selectionSize. simpl. lia.
Qed.

Lemma selectionSize_total_not_loaded_witness :
  selectionSize (render window5 NotLoaded (selectionUpdate (ALL_EXCEPT [11; 13])))
  < 0.
Proof.
  apply (selectionSize_total_not_loaded window5 [11; 13] setPartial).
  vm_compute. lia.
Defined.

(** ** Scenario B *)

(** C6: over the window of five loaded records with ids 10..14 and total 5,
    add-all gives [ALL_EXCEPT []] of size 5; remove of [[1, 2)] then gives
    [ALL_EXCEPT [11]] of size 4, with [[0, 1)] selected and [[1, 2)] not. *)
Theorem scenario_B :
  let stored1 := hookStep window5 (Loaded 5) T_add_all None ∅ in
  let hook1 := render window5 (Loaded 5) stored1 in
  let stored2 := hookStep window5 (Loaded 5) T_remove (Some (1, 2)) stored1 in
  let hook2 := render window5 (Loaded 5) stored2 in
  selection hook1 = ALL_EXCEPT []
  ∧ selectionSize hook1 = 5
  ∧ selection hook2 = ALL_EXCEPT [11]
  ∧ selectionSize hook2 = 4
  ∧ isRangeSelected hook2 (0, 1) = true
  ∧ isRangeSelected hook2 (1, 2) = false.
Proof. vm_compute. repeat split; reflexivity. Qed.

(** ** Scenarios A and C *)

(** Scenario A of the spec: from the default state, set of [[0, 2)] selects
    the ids 10 and 11. *)
Example scenario_A :
  let stored1 := hookStep window5 (Loaded 5) T_set (Some (0, 2)) ∅ in
  let hook1 := render window5 (Loaded 5) stored1 in
  selection hook1 = ONLY_IN [10; 11]
  ∧ selectionSize hook1 = 2
  ∧ isRangeSelected hook1 (0, 2) = true
  ∧ isRangeSelected hook1 (0, 3) = false.
Proof. vm_compute. repeat split; reflexivity. Qed.

(** Scenario C of the spec: a selected id that the window has not loaded is
    not projected; once position 7 resolves to it, position 7 is, with the
    same state. *)
Example scenario_C :
  let stored := selectionUpdate (ONLY_IN [20]) in
  let later := replicate 7 NotLoaded ++ [run 20] in
  rows (dataGridSelection (render window5 (Loaded 8) stored)) = []
  ∧ rows (dataGridSelection (render later (Loaded 8) stored)) = [(7, 8)]
  ∧ CompactSelection.hasIndex
      (rows (dataGridSelection (render later (Loaded 8) stored))) 7 = true.
Proof. vm_compute. repeat split; reflexivity. Qed.

(** ** Projection of "everything selected" *)

(** C1 (what the code does): with the total [N] loaded and no exclusion, the
    rows of the grid selection are the positions [p] with [0 <= p < N - 1]:
    the slice handed to [CompactSelection.add] is [[0, N - 1]], which the
    interval set reads as half-open, so position [N - 1] is left out. *)
Theorem dataGridSelection_all_rows {T} `{HasId T}
    (records : list (Loadable T)) (N : Z)
    (upd : Settings → Settings → Settings) :
  let config := {| records := records; selection := ALL_EXCEPT [];
                   total := Loaded N; updateSettings := upd |} in
  (∀ p, CompactSelection.hasIndex (rows (dataGridSelection config)) p = true
        ↔ 0 <= p < N - 1)
  ∧ CompactSelection.hasIndex (rows (dataGridSelection config)) (N - 1) = false.
Proof.
  simpl. unfold dataGridSelection. simpl.
  unfold CompactSelection.hasIndex. simpl. split.
  - intros p. rewrite orb_false_r. apply CompactSelectionFacts.inSlice_true.
  - unfold CompactSelection.inSlice. simpl.
    rewrite Z.ltb_irrefl. by rewrite andb_false_r.
Qed.

(** The failing input of C1: five loaded rows, total 5, everything selected;
    the size is 5 and the last row reads as selected, yet position 4 is not
    in the projection. *)
Example dataGridSelection_misses_last_row :
  let config := render window5 (Loaded 5) (selectionUpdate (ALL_EXCEPT [])) in
  selectionSize config = 5
  ∧ isRangeSelected config (4, 5) = true
  ∧ map (CompactSelection.hasIndex (rows (dataGridSelection config))) [0; 1; 2; 3; 4]
    = [true; true; true; true; false].
Proof. vm_compute. repeat split; reflexivity. Qed.

(** ** Loaded records *)

Lemma filterNotLoaded_filter {T} (a : list (Loadable T)) (condition : T → bool) :
  Loadable.filterNotLoaded a condition = List.filter condition (Loadable.loaded a).
Proof.
  unfold Loadable.loaded.
  induction a as [| [d |] a IH]; simpl; [done | | done].
  rewrite IH. reflexivity.
Qed.

Lemma elem_of_loaded {T} (a : list (Loadable T)) (d : T) :
  d ∈ Loadable.loaded a ↔ Loaded d ∈ a.
Proof.
  unfold Loadable.loaded.
  induction a as [| [d' |] a IH]; simpl.
  - by rewrite !elem_of_nil.
  - rewrite !elem_of_cons, IH. split; intros [Hd | Hd]; auto; left; congruence.
  - rewrite elem_of_cons, IH. split; [auto | intros [Hd | Hd]; [done | auto]].
Qed.

Lemma selectedRecordIdSet_has {T} `{HasId T} (config : SelectionConfig T) (d : T) :
  Loaded d ∈ records config →
  JsSet.has (selectedRecordIdSet config) (id d)
  = isSelectedId (selection config) (id d).
Proof.
  intros Hd. unfold selectedRecordIdSet, isSelectedId.
  destruct (selection config) as [selections | exclusions].
  - apply JsSetFacts.has_new.
  - simpl. rewrite JsSetFacts.has_new, filterNotLoaded_filter.
    destruct (decide (id d ∈ exclusions)) as [Hin | Hout].
    + rewrite (bool_decide_eq_true_2 (id d ∈ exclusions)) by done. simpl.
      apply bool_decide_eq_false_2. intros Hmem.
      apply list_elem_of_fmap in Hmem as (d' & Heq & Hd').
      apply list_elem_of_In, filter_In in Hd' as [_ Hcond].
      rewrite JsSetFacts.has_new, <- Heq in Hcond.
      by rewrite (bool_decide_eq_true_2 (id d ∈ exclusions)) in Hcond.
    + rewrite (bool_decide_eq_false_2 (id d ∈ exclusions)) by done. simpl.
      apply bool_decide_eq_true_2. apply list_elem_of_fmap. exists d.
      split; [done |]. apply list_elem_of_In, filter_In. split.
      * by apply list_elem_of_In, elem_of_loaded.
      * rewrite JsSetFacts.has_new.
        by rewrite (bool_decide_eq_false_2 (id d ∈ exclusions)).
Qed.

(** C8: the loaded selected records are the loaded records of the window,
    in window order, filtered by membership of their id in the effective
    selection (listed for [ONLY_IN], not listed for [ALL_EXCEPT]). *)
Theorem loadedSelectedRecords_spec {T} `{HasId T} (config : SelectionConfig T) :
  loadedSelectedRecords config
  = List.filter (λ d, isSelectedId (selection config) (id d))
      (Loadable.loaded (records config)).
Proof.
  unfold loadedSelectedRecords. rewrite filterNotLoaded_filter.
  apply List.filter_ext_in. intros d Hd.
  apply selectedRecordIdSet_has. by apply elem_of_loaded, list_elem_of_In.
Qed.

(** ** The handler *)

Lemma FlatRuns_newSettings_eq {T} `{HasId T} (config : SelectionConfig T)
    (selectionType : SelectionType) (range : option (Z * Z)) :
  FlatRuns.newSettings (records config) (selection config) selectionType range
  = newSettings config selectionType range.
Proof. reflexivity. Qed.

Lemma FlatRuns_handleSelectionChange_eq {T} `{HasId T}
    (runs : list (Loadable T)) (total : Loadable Z)
    (selectionType : SelectionType) (range : option (Z * Z)) (stored : Settings) :
  FlatRuns.handleSelectionChange runs selectionType range stored
  = hookStep runs total selectionType range stored.
Proof. reflexivity. Qed.

Lemma hookStep_selection {T} `{HasId T} (records : list (Loadable T))
    (total : Loadable Z) (selectionType : SelectionType)
    (range : option (Z * Z)) (stored : Settings) :
  storedSelection (hookStep records total selectionType range stored)
  = default (storedSelection stored)
      (newSettings (render records total stored) selectionType range).
Proof.
  unfold hookStep, handleSelectionChange.
  destruct (newSettings _ _ _) as [s |]; simpl; [| done].
  apply storedSelection_setPartial.
Qed.

Lemma hookStep_frame {T} `{HasId T} (records : list (Loadable T))
    (total : Loadable Z) (selectionType : SelectionType)
    (range : option (Z * Z)) (stored : Settings) (k : string) :
  k ≠ "selection"%string →
  hookStep records total selectionType range stored !! k = stored !! k.
Proof.
  intros Hk. unfold hookStep, handleSelectionChange.
  destruct (newSettings _ _ _) as [s |]; simpl; [| done].
  by apply setPartial_frame.
Qed.

(** C10: a call of the handler either returns before [updateSettings] or
    calls it once with the object [{ selection: newSettings }], whose only
    key is [selection]; with the settings store's merge, every other stored
    field keeps its value, in the hook and in the copy of FlatRuns. *)
Theorem handleSelectionChange_frame {T} `{HasId T} :
  (∀ (config : SelectionConfig T) selectionType range stored,
      (newSettings config selectionType range = None
       ∧ handleSelectionChange config selectionType range stored = stored)
      ∨ (∃ s p,
            newSettings config selectionType range = Some s
            ∧ handleSelectionChange config selectionType range stored
              = updateSettings config p stored
            ∧ p !! "selection"%string = Some (VSelection s)
            ∧ dom p = ({[ "selection"%string ]} : gset string)))
  ∧ (∀ (records : list (Loadable T)) total selectionType range stored k,
        k ≠ "selection"%string →
        hookStep records total selectionType range stored !! k = stored !! k)
  ∧ (∀ (runs : list (Loadable T)) selectionType range stored k,
        k ≠ "selection"%string →
        FlatRuns.handleSelectionChange runs selectionType range stored !! k
        = stored !! k).
Proof.
  split; [| split].
  - intros config selectionType range stored. unfold handleSelectionChange.
    destruct (newSettings config selectionType range) as [s |]; [right | by left].
    exists s, (selectionUpdate s).
    split; [done |]. split; [done |].
    split; [apply lookup_singleton_eq | apply dom_selectionUpdate].
  - intros. by apply hookStep_frame.
  - intros runs selectionType range stored k Hk.
    rewrite (FlatRuns_handleSelectionChange_eq runs NotLoaded).
    by apply hookStep_frame.
Qed.

Lemma handleSelectionChange_frame_witness :
  hookStep window5 (Loaded 5) T_add (Some (0, 2))
    {[ "pageLimit"%string := VNumber 20 ]} !! "pageLimit"%string
  = Some (VNumber 20).
Proof.
  rewrite (proj1 (proj2 handleSelectionChange_frame)
             window5 (Loaded 5) T_add (Some (0, 2))
             {[ "pageLimit"%string := VNumber 20 ]} "pageLimit"%string).
  - reflexivity.
  - discriminate.
Defined.

Lemma fold_add_idem (ids a : list Z) :
  let once := fold_left JsSet.add ids (JsSet.new a) in
  fold_left JsSet.add ids (JsSet.new once) = once.
Proof.
  simpl. rewrite JsSetFacts.new_NoDup
    by apply JsSetFacts.NoDup_fold_add, JsSetFacts.NoDup_new.
  apply JsSetFacts.fold_add_members. intros x Hx.
  apply JsSetFacts.elem_of_fold_add. by right.
Qed.

Lemma fold_delete_idem (ids a : list Z) :
  let once := fold_left JsSet.delete ids (JsSet.new a) in
  fold_left JsSet.delete ids (JsSet.new once) = once.
Proof.
  simpl. rewrite JsSetFacts.new_NoDup
    by apply JsSetFacts.NoDup_fold_delete, JsSetFacts.NoDup_new.
  apply JsSetFacts.fold_delete_absent. intros x Hx Hmem.
  apply JsSetFacts.elem_of_fold_delete in Hmem as [_ Hmem]. done.
Qed.

Lemma hookStep_idem {T} `{HasId T} (records : list (Loadable T))
    (total : Loadable Z) (selectionType : SelectionType) (range : Z * Z)
    (stored : Settings) :
  selectionType = T_add ∨ selectionType = T_remove →
  let once := hookStep records total selectionType (Some range) stored in
  storedSelection (hookStep records total selectionType (Some range) once)
  = storedSelection once.
Proof.
  intros Hty. simpl.
  rewrite (hookStep_selection records total _ _ (hookStep _ _ _ _ _)).
  destruct Hty as [-> | ->]; unfold newSettings; simpl;
    rewrite !hookStep_selection; unfold newSettings; simpl;
    destruct (storedSelection stored) as [l | l]; simpl;
    unfold JsSet.toArray; f_equal;
    first [ apply fold_add_idem | apply fold_delete_idem ].
Qed.

(** C7: over a fixed window, add of a range applied twice leaves the same
    selection state as applied once, and so does remove, in the hook and in
    the copy of FlatRuns. *)
Theorem add_remove_idempotent {T} `{HasId T}
    (records : list (Loadable T)) (total : Loadable Z) (range : Z * Z)
    (stored : Settings) :
  let add_ := hookStep records total T_add (Some range) in
  let remove_ := hookStep records total T_remove (Some range) in
  let pageAdd := FlatRuns.handleSelectionChange records T_add (Some range) in
  let pageRemove := FlatRuns.handleSelectionChange records T_remove (Some range) in
  storedSelection (add_ (add_ stored)) = storedSelection (add_ stored)
  ∧ storedSelection (remove_ (remove_ stored)) = storedSelection (remove_ stored)
  ∧ storedSelection (pageAdd (pageAdd stored)) = storedSelection (pageAdd stored)
  ∧ storedSelection (pageRemove (pageRemove stored))
    = storedSelection (pageRemove stored).
Proof.
  simpl. rewrite !(FlatRuns_handleSelectionChange_eq records total).
  repeat split; apply hookStep_idem; auto.
Qed.

(** ** Ranges that resolve no id *)

Lemma loaded_pending {T} (a : list (Loadable T)) :
  (∀ d, Loaded d ∉ a) → Loadable.loaded a = [].
Proof.
  intros Ha. destruct (Loadable.loaded a) as [| d l] eqn:E; [done |].
  exfalso. apply (Ha d), elem_of_loaded. rewrite E. left.
Qed.

Lemma slice_outside {A} (a : list A) (lo hi : Z) :
  Z.of_nat (length a) <= lo → slice a lo hi = [].
Proof.
  intros Hlo. unfold slice. cbv zeta.
  assert (Hfrom : relativeIndex (Z.of_nat (length a)) lo = Z.of_nat (length a)).
  { unfold relativeIndex. destruct (Z.ltb_spec lo 0); lia. }
  rewrite Hfrom, Nat2Z.id, drop_all. apply take_nil.
Qed.

(** A range past the end of the window resolves no id. *)
Lemma rowRangeToIds_outside {T} `{HasId T} (config : SelectionConfig T) (lo hi : Z) :
  Z.of_nat (length (records config)) <= lo → rowRangeToIds config (lo, hi) = [].
Proof. intros Hlo. unfold rowRangeToIds. simpl. by rewrite slice_outside. Qed.

(** A range whose slots are all pending resolves no id. *)
Lemma rowRangeToIds_pending {T} `{HasId T} (config : SelectionConfig T) (range : Z * Z) :
  (∀ d, Loaded d ∉ slice (records config) (fst range) (snd range)) →
  rowRangeToIds config range = [].
Proof. intros Hp. unfold rowRangeToIds. by rewrite loaded_pending. Qed.

Lemma deduplicated_NoDup (s : SelectionState) :
  NoDup (trackedIds s) → deduplicated s = s.
Proof.
  destruct s as [l | l]; simpl; intros Hl; unfold JsSet.toArray;
    by rewrite JsSetFacts.new_NoDup.
Qed.

Lemma hookStep_no_ids {T} `{HasId T} (records : list (Loadable T))
    (total : Loadable Z) (range : Z * Z) (stored : Settings) :
  rowRangeToIds (render records total stored) range = [] →
  storedSelection (hookStep records total T_add (Some range) stored)
    = deduplicated (storedSelection stored)
  ∧ storedSelection (hookStep records total T_remove (Some range) stored)
    = deduplicated (storedSelection stored)
  ∧ storedSelection (hookStep records total T_set (Some range) stored)
    = ONLY_IN [].
Proof.
  intros Hids. rewrite !hookStep_selection. unfold newSettings. simpl.
  rewrite Hids. by destruct (storedSelection stored).
Qed.

(** C2 (as amended): when the range resolves no id through the loaded
    window, add and remove keep the variant and the tracked ids (the stored
    array is written back without repeated ids, so it is the prior array
    when that has none), while set replaces the state by the empty
    [ONLY_IN]; every one of them returns, in the hook and in the copy of
    FlatRuns. *)
Theorem range_without_ids {T} `{HasId T} (records : list (Loadable T))
    (total : Loadable Z) (range : Z * Z) (stored : Settings) :
  rowRangeToIds (render records total stored) range = [] →
  let prior := storedSelection stored in
  (storedSelection (hookStep records total T_add (Some range) stored)
     = deduplicated prior
   ∧ storedSelection (hookStep records total T_remove (Some range) stored)
     = deduplicated prior
   ∧ storedSelection (hookStep records total T_set (Some range) stored)
     = ONLY_IN [])
  ∧ (storedSelection (FlatRuns.handleSelectionChange records T_add (Some range) stored)
       = deduplicated prior
     ∧ storedSelection
         (FlatRuns.handleSelectionChange records T_remove (Some range) stored)
       = deduplicated prior
     ∧ storedSelection
         (FlatRuns.handleSelectionChange records T_set (Some range) stored)
       = ONLY_IN [])
  ∧ (NoDup (trackedIds prior) → deduplicated prior = prior).
Proof.
  intros Hids. simpl. split; [| split].
  - by apply hookStep_no_ids.
  - rewrite !(FlatRuns_handleSelectionChange_eq records total).
    by apply hookStep_no_ids.
  - apply deduplicated_NoDup.
Qed.

Lemma range_without_ids_witness :
  storedSelection
    (hookStep window5 (Loaded 5) T_add (Some (7, 9))
       (selectionUpdate (ONLY_IN [10; 12])))
  = ONLY_IN [10; 12].
Proof.
  assert (Hids : rowRangeToIds
                   (render window5 (Loaded 5) (selectionUpdate (ONLY_IN [10; 12])))
                   (7, 9) = []) by reflexivity.
  exact (proj1 (proj1 (range_without_ids window5 (Loaded 5) (7, 9)
                         (selectionUpdate (ONLY_IN [10; 12])) Hids))).
Defined.

(** C2 fails as stated: set of a range past the end of the window resolves
    no id and still replaces the selection [ONLY_IN [10; 12]] by the empty
    one. *)
Lemma set_without_ids_not_noop :
  let stored := selectionUpdate (ONLY_IN [10; 12]) in
  rowRangeToIds (render window5 (Loaded 5) stored) (7, 9) = []
  ∧ storedSelection (hookStep window5 (Loaded 5) T_set (Some (7, 9)) stored)
    ≠ storedSelection stored.
Proof. vm_compute. split; [reflexivity | discriminate]. Qed.

(** ** The map from ids to positions *)

Section RecordMap.
Context {T : Type} `{HasId T}.

Lemma loadedIds_cons_Loaded (d : T) (a : list (Loadable T)) :
  loadedIds (Loaded d :: a) = id d :: loadedIds a.
Proof. reflexivity. Qed.

Lemma loadedIds_cons_NotLoaded (a : list (Loadable T)) :
  loadedIds (NotLoaded :: a) = loadedIds a.
Proof. reflexivity. Qed.

Lemma elem_of_loadedIds (a : list (Loadable T)) (k : Z) :
  k ∈ loadedIds a ↔ ∃ d, Loaded d ∈ a ∧ id d = k.
Proof.
  unfold loadedIds. rewrite list_elem_of_fmap. split.
  - intros (d & -> & Hd). exists d. by rewrite <- elem_of_loaded.
  - intros (d & Hd & <-). exists d. by rewrite elem_of_loaded.
Qed.

(** An id that no loaded record carries is not touched. *)
Lemma recordMap_absent (a : list (Loadable T)) (i0 : Z) m (k : Z) :
  k ∉ loadedIds a → forEachIndexed setRecord a i0 m !! k = m !! k.
Proof.
  revert i0 m. induction a as [| [d |] a IH]; intros i0 m Hk; simpl; [done | |].
  - rewrite loadedIds_cons_Loaded in Hk. apply not_elem_of_cons in Hk as [Hne Hk].
    rewrite IH by done. by apply lookup_insert_ne.
  - by apply IH.
Qed.

(** Every entry comes from a loaded record, with the position it has. *)
Lemma recordMap_sound (a : list (Loadable T)) (i0 : Z) m (k : Z) v :
  forEachIndexed setRecord a i0 m !! k = Some v →
  m !! k = Some v
  ∨ ∃ n d, a !! n = Some (Loaded d) ∧ id d = k
           ∧ v = {| record := d; index := i0 + Z.of_nat n |}.
Proof.
  revert i0 m. induction a as [| r a IH]; intros i0 m Hv; simpl in *; [by left |].
  apply IH in Hv as [Hv | (n & d & Hn & Hid & ->)].
  - destruct r as [d |]; simpl in Hv; [| by left].
    destruct (decide (id d = k)) as [<- | Hne].
    + rewrite lookup_insert_eq in Hv. injection Hv as <-.
      right. exists 0%nat, d. simpl. by rewrite Z.add_0_r.
    + rewrite lookup_insert_ne in Hv by done. by left.
  - right. exists (S n), d. split; [done |]. split; [done |].
    f_equal. rewrite Nat2Z.inj_succ. lia.
Qed.

(** With pairwise distinct ids, a loaded record is found at its position. *)
Lemma recordMap_complete (a : list (Loadable T)) (i0 : Z) m (n : nat) (d : T) :
  NoDup (loadedIds a) →
  a !! n = Some (Loaded d) →
  forEachIndexed setRecord a i0 m !! id d
  = Some {| record := d; index := i0 + Z.of_nat n |}.
Proof.
  revert i0 m n. induction a as [| r a IH]; intros i0 m n Hnd Hn; [done |].
  destruct n as [| n]; simpl in Hn.
  - injection Hn as ->. simpl.
    rewrite loadedIds_cons_Loaded in Hnd. apply NoDup_cons in Hnd as [Hfresh _].
    rewrite recordMap_absent by done.
    rewrite lookup_insert_eq. by rewrite Z.add_0_r.
  - rewrite Nat2Z.inj_succ. simpl.
    rewrite (IH (i0 + 1) _ n); [f_equal; f_equal; lia | | done].
    destruct r; [| done].
    rewrite loadedIds_cons_Loaded in Hnd. by apply NoDup_cons in Hnd as [_ ?].
Qed.

Lemma loadedRecordIdMap_sound (config : SelectionConfig T) (k : Z) v :
  loadedRecordIdMap config !! k = Some v →
  0 <= index v
  ∧ records config !! Z.to_nat (index v) = Some (Loaded (record v))
  ∧ id (record v) = k.
Proof.
  intros Hv. apply recordMap_sound in Hv as [Hv | (n & d & Hn & Hid & ->)].
  - by rewrite lookup_empty in Hv.
  - cbn [index record]. rewrite Z.add_0_l, Nat2Z.id.
    split; [lia | by split].
Qed.

Lemma loadedRecordIdMap_complete (config : SelectionConfig T) (p : Z) (d : T) :
  NoDup (loadedIds (records config)) →
  0 <= p →
  records config !! Z.to_nat p = Some (Loaded d) →
  loadedRecordIdMap config !! id d = Some {| record := d; index := p |}.
Proof.
  intros Hnd Hp Hd. unfold loadedRecordIdMap.
  rewrite (recordMap_complete _ 0 ∅ (Z.to_nat p) d) by done.
  f_equal. f_equal. lia.
Qed.
End RecordMap.

(** ** Ranges of the window *)

Lemma elem_of_slice {A} (a : list A) (lo hi : Z) (x : A) :
  0 <= lo → 0 <= hi →
  x ∈ slice a lo hi ↔ ∃ p, lo <= p < hi ∧ a !! Z.to_nat p = Some x.
Proof.
  intros Hlo Hhi. unfold slice. cbv zeta.
  set (len := Z.of_nat (length a)).
  assert (Hfrom : relativeIndex len lo = Z.min lo len).
  { unfold relativeIndex. destruct (Z.ltb_spec lo 0); [lia | done]. }
  assert (Hfinal : relativeIndex len hi = Z.min hi len).
  { unfold relativeIndex. destruct (Z.ltb_spec hi 0); [lia | done]. }
  rewrite Hfrom, Hfinal, elem_of_take. split.
  - intros (n & Hn & Hlt). rewrite lookup_drop in Hn.
    apply lookup_lt_Some in Hn as Hlen.
    exists (Z.min lo len + Z.of_nat n). split; [unfold len in *; lia |].
    rewrite <- Hn. f_equal. lia.
  - intros (p & Hp & Hx). apply lookup_lt_Some in Hx as Hlen.
    exists (Z.to_nat (p - lo)). rewrite lookup_drop. split; [| unfold len; lia].
    rewrite <- Hx. f_equal. unfold len. lia.
Qed.

Lemma elem_of_rowRangeToIds {T} `{HasId T} (config : SelectionConfig T)
    (lo hi k : Z) :
  0 <= lo → 0 <= hi →
  k ∈ rowRangeToIds config (lo, hi)
  ↔ ∃ p d, lo <= p < hi ∧ records config !! Z.to_nat p = Some (Loaded d) ∧ id d = k.
Proof.
  intros Hlo Hhi. unfold rowRangeToIds. simpl.
  change (map id (Loadable.loaded ?l)) with (loadedIds l).
  rewrite elem_of_loadedIds. split.
  - intros (d & Hd & Hid). apply elem_of_slice in Hd as (p & Hp & Hd); [| done..].
    by exists p, d.
  - intros (p & d & Hp & Hd & Hid). exists d. split; [| done].
    apply elem_of_slice; [done.. |]. by exists p.
Qed.

(** ** Reading the projection *)

Section Projection.
Context {T : Type} `{HasId T}.
Import CompactSelection.

Lemma inSlice_row (p i : Z) : inSlice p (toSlice (Row i)) = true ↔ i = p.
Proof. rewrite CompactSelectionFacts.inSlice_true. simpl. lia. Qed.

Lemma hasIndex_fold_add (m : gmap Z (IndexedRecord T)) (ids : list Z)
    (sel : CompactSelection.t) (p : Z) :
  hasIndex
    (fold_left
       (λ rows id_,
         match index <$> m !! id_ with
         | Some incIndex => add rows (Row incIndex)
         | None => rows
         end) ids sel) p = true
  ↔ hasIndex sel p = true ∨ ∃ k v, k ∈ ids ∧ m !! k = Some v ∧ index v = p.
Proof.
  revert sel. induction ids as [| x ids IH]; intros sel; simpl.
  - split; [by left | intros [? | (k & v & Hk & _)]; [done |]].
    by apply elem_of_nil in Hk.
  - rewrite IH. split.
    + intros [Hsel | (k & v & Hk & Hv & Hp)].
      * destruct (m !! x) as [v |] eqn:Hx; simpl in Hsel; [| by left].
        rewrite CompactSelectionFacts.hasIndex_add in Hsel.
        apply orb_true_iff in Hsel as [Hsel | Hrow]; [by left |].
        apply inSlice_row in Hrow. right. exists x, v. split; [left | done].
      * right. exists k, v. split; [by right | done].
    + intros [Hsel | (k & v & Hk & Hv & Hp)].
      * left. destruct (m !! x) as [v |]; simpl; [| done].
        rewrite CompactSelectionFacts.hasIndex_add, Hsel. reflexivity.
      * apply elem_of_cons in Hk as [-> | Hk].
        -- left. rewrite Hv. simpl.
           rewrite CompactSelectionFacts.hasIndex_add.
           apply orb_true_iff. right. by apply inSlice_row.
        -- right. by exists k, v.
Qed.

Lemma hasIndex_fold_remove (m : gmap Z (IndexedRecord T)) (ids : list Z)
    (sel : CompactSelection.t) (p : Z) :
  hasIndex
    (fold_left
       (λ rows exc,
         match index <$> m !! exc with
         | Some excIndex => remove rows (Row excIndex)
         | None => rows
         end) ids sel) p = true
  ↔ hasIndex sel p = true ∧ ∀ k v, k ∈ ids → m !! k = Some v → index v ≠ p.
Proof.
  revert sel. induction ids as [| x ids IH]; intros sel; simpl.
  - split; [intros Hsel; split; [done |] | by intros [? _]].
    intros k v Hk. by apply elem_of_nil in Hk.
  - rewrite IH. split.
    + intros [Hsel Hrest]. destruct (m !! x) as [v |] eqn:Hx; simpl in Hsel.
      * rewrite CompactSelectionFacts.hasIndex_remove_row in Hsel.
        apply andb_true_iff in Hsel as [Hsel Hne].
        apply negb_true_iff, Z.eqb_neq in Hne.
        split; [done |]. intros k w Hk Hw.
        apply elem_of_cons in Hk as [-> | Hk]; [| by eapply Hrest].
        rewrite Hx in Hw. injection Hw as <-. congruence.
      * split; [done |]. intros k w Hk Hw.
        apply elem_of_cons in Hk as [-> | Hk]; [congruence | by eapply Hrest].
    + intros [Hsel Hall]. split.
      * destruct (m !! x) as [v |] eqn:Hx; simpl; [| done].
        rewrite CompactSelectionFacts.hasIndex_remove_row, Hsel. simpl.
        apply negb_true_iff, Z.eqb_neq. intros Hp.
        apply (Hall x v); [left | done | done].
      * intros k w Hk. apply Hall. by right.
Qed.

Variable config : SelectionConfig T.

Lemma isRangeSelected_ONLY_IN (selections : list Z) (range : Z * Z) :
  selection config = ONLY_IN selections →
  isRangeSelected config range = true
  ↔ ∀ k, k ∈ rowRangeToIds config range → k ∈ selections.
Proof.
  intros Hsel. unfold isRangeSelected. rewrite Hsel, forallb_forall.
  split; intros Hall k Hk.
  - apply list_elem_of_In, Hall in Hk. cbv beta zeta in Hk.
    by rewrite JsSetFacts.has_true, JsSetFacts.elem_of_new in Hk.
  - cbv beta zeta. rewrite JsSetFacts.has_true, JsSetFacts.elem_of_new.
    by apply Hall, list_elem_of_In.
Qed.

Lemma isRangeSelected_ALL_EXCEPT (exclusions : list Z) (range : Z * Z) :
  selection config = ALL_EXCEPT exclusions →
  isRangeSelected config range = true
  ↔ ∀ k, k ∈ rowRangeToIds config range → k ∉ exclusions.
Proof.
  intros Hsel. unfold isRangeSelected. rewrite Hsel, forallb_forall.
  split; intros Hall k Hk.
  - apply list_elem_of_In, Hall in Hk. cbv beta zeta in Hk.
    apply negb_true_iff in Hk.
    by rewrite JsSetFacts.has_false, JsSetFacts.elem_of_new in Hk.
  - cbv beta zeta. apply negb_true_iff.
    rewrite JsSetFacts.has_false, JsSetFacts.elem_of_new. by apply Hall, list_elem_of_In.
Qed.
End Projection.

(** ** Projection against the range query *)

(** C4 (as amended): over a window whose loaded records have pairwise
    distinct ids, for a range [[lo, hi)] of loaded slots, and, when the state
    is [ALL_EXCEPT], with the total [N] loaded and [hi <= N - 1]: every
    position of the range is in the projected rows exactly when
    [isRangeSelected] answers true. *)
Theorem range_projection_consistent {T} `{HasId T}
    (config : SelectionConfig T) (lo hi : Z) :
  NoDup (loadedIds (records config)) →
  0 <= lo <= hi →
  (∀ p, lo <= p < hi → ∃ d, records config !! Z.to_nat p = Some (Loaded d)) →
  (∀ exclusions,
      selection config = ALL_EXCEPT exclusions →
      ∃ N, total config = Loaded N ∧ hi <= N - 1) →
  (∀ p, lo <= p < hi →
        CompactSelection.hasIndex (rows (dataGridSelection config)) p = true)
  ↔ isRangeSelected config (lo, hi) = true.
Proof.
  intros Hnd [Hlo Hhi] Hloaded Htotal.
  assert (Hhi0 : 0 <= hi) by lia.
  unfold dataGridSelection. cbv zeta.
  destruct (selection config) as [selections | exclusions] eqn:Hsel; cbn [rows].
  - rewrite (isRangeSelected_ONLY_IN config selections) by done. split.
    + intros Hin k Hk.
      apply elem_of_rowRangeToIds in Hk as (p & d & Hp & Hd & <-); [| done..].
      apply Hin, hasIndex_fold_add in Hp as [Hp | (k & v & Hk & Hv & <-)]; [done |].
      apply loadedRecordIdMap_sound in Hv as (_ & Hv & <-).
      rewrite Hd in Hv. by injection Hv as ->.
    + intros Hall p Hp. destruct (Hloaded p Hp) as [d Hd].
      apply hasIndex_fold_add. right.
      exists (id d), {| record := d; index := p |}. split; [| split; [| done]].
      * apply Hall, elem_of_rowRangeToIds; [done.. |]. by exists p, d.
      * apply loadedRecordIdMap_complete; [done | lia | done].
  - destruct (Htotal exclusions eq_refl) as (N & HN & HhiN). rewrite HN.
    rewrite (isRangeSelected_ALL_EXCEPT config exclusions) by done.
    cbn [Loadable.getOrElse]. split.
    + intros Hin k Hk Hexc.
      apply elem_of_rowRangeToIds in Hk as (p & d & Hp & Hd & <-); [| done..].
      pose proof (Hin p Hp) as Hrows.
      apply hasIndex_fold_remove in Hrows as [_ Hrows].
      apply (Hrows (id d) {| record := d; index := p |}); [done | | done].
      apply loadedRecordIdMap_complete; [done | lia | done].
    + intros Hall p Hp. apply hasIndex_fold_remove. split.
      * rewrite CompactSelectionFacts.hasIndex_add. simpl.
        apply CompactSelectionFacts.inSlice_true. simpl. lia.
      * intros k v Hk Hv Hidx.
        apply loadedRecordIdMap_sound in Hv as (_ & Hv & Hid).
        apply (Hall k); [| done].
        apply elem_of_rowRangeToIds; [done.. |].
        rewrite Hidx in Hv. by exists p, (record v).
Qed.

Lemma range_projection_consistent_witness :
  let config := render window5 (Loaded 5) (selectionUpdate (ALL_EXCEPT [11])) in
  (∀ p, 2 <= p < 4 →
        CompactSelection.hasIndex (rows (dataGridSelection config)) p = true)
  ↔ isRangeSelected config (2, 4) = true.
Proof.
  apply (range_projection_consistent
           (render window5 (Loaded 5) (selectionUpdate (ALL_EXCEPT [11]))) 2 4).
  - apply (bool_decide_unpack (NoDup _)). vm_compute. exact I.
  - lia.
  - intros p Hp. assert (Hcase : p = 2 ∨ p = 3) by lia.
    destruct Hcase as [-> | ->]; eexists; reflexivity.
  - intros exclusions _. exists 5. split; [reflexivity | lia].
Defined.

(** Why the ids of the window must be distinct: the map from ids to positions
    keeps the last position of an id, so the first of two records with the id
    7 is not projected although the range query counts it as selected. *)
Example range_projection_repeated_id :
  let config := render [run 7; run 7] (Loaded 5) (selectionUpdate (ONLY_IN [7])) in
  isRangeSelected config (0, 1) = true
  ∧ CompactSelection.hasIndex (rows (dataGridSelection config)) 0 = false
  ∧ CompactSelection.hasIndex (rows (dataGridSelection config)) 1 = true.
Proof. vm_compute. repeat split; reflexivity. Qed.

(** C4 fails as stated: while the total is not loaded, the projection of
    "everything selected" starts from the default total 1 and does not reach
    position 1, yet [isRangeSelected] answers true for the loaded range
    [[1, 2)]. *)
Lemma range_projection_total_not_loaded :
  let config := render [run 10; run 11] NotLoaded (selectionUpdate (ALL_EXCEPT [])) in
  ¬ ((∀ p, 1 <= p < 2 →
           CompactSelection.hasIndex (rows (dataGridSelection config)) p = true)
     ↔ isRangeSelected config (1, 2) = true).
Proof.
  simpl. intros [_ Hback].
  specialize (Hback eq_refl 1 ltac:(lia)). vm_compute in Hback. discriminate.
Qed.

(** * Further properties of the hook *)

(** ** Membership after a gesture *)

Lemma isRangeSelected_forallb {T} `{HasId T} (config : SelectionConfig T)
    (range : Z * Z) :
  isRangeSelected config range
  = forallb (isSelectedId (selection config)) (rowRangeToIds config range).
Proof.
  unfold isRangeSelected, isSelectedId.
  destruct (selection config) as [l | l];
    induction (rowRangeToIds config range) as [| k ids IH]; simpl;
    rewrite ?JsSetFacts.has_new, ?IH; reflexivity.
Qed.

Lemma bool_decide_fold_add (ids a : list Z) (k : Z) :
  bool_decide (k ∈ fold_left JsSet.add ids (JsSet.new a))
  = bool_decide (k ∈ a) || bool_decide (k ∈ ids).
Proof.
  rewrite <- bool_decide_or. apply bool_decide_ext.
  by rewrite JsSetFacts.elem_of_fold_add, JsSetFacts.elem_of_new.
Qed.

Lemma bool_decide_fold_delete (ids a : list Z) (k : Z) :
  bool_decide (k ∈ fold_left JsSet.delete ids (JsSet.new a))
  = bool_decide (k ∈ a) && negb (bool_decide (k ∈ ids)).
Proof.
  rewrite <- bool_decide_not, <- bool_decide_and. apply bool_decide_ext.
  by rewrite JsSetFacts.elem_of_fold_delete, JsSetFacts.elem_of_new.
Qed.

Section Membership.
Context {T : Type} `{HasId T}.
Variables (records : list (Loadable T)) (total : Loadable Z).
Variables (range : Z * Z) (stored : Settings).

Local Abbreviation ids := (rowRangeToIds (render records total stored) range).
Local Abbreviation after selectionType :=
  (storedSelection (hookStep records total selectionType (Some range) stored)).

Lemma after_add_isSelectedId (k : Z) :
  isSelectedId (after T_add) k
  = isSelectedId (storedSelection stored) k || bool_decide (k ∈ ids).
Proof.
  rewrite hookStep_selection. unfold newSettings. simpl.
  destruct (storedSelection stored) as [l | l]; simpl; unfold JsSet.toArray.
  - apply bool_decide_fold_add.
  - rewrite bool_decide_fold_delete, negb_andb, negb_involutive. reflexivity.
Qed.

Lemma after_remove_isSelectedId (k : Z) :
  isSelectedId (after T_remove) k
  = isSelectedId (storedSelection stored) k && negb (bool_decide (k ∈ ids)).
Proof.
  rewrite hookStep_selection. unfold newSettings. simpl.
  destruct (storedSelection stored) as [l | l]; simpl; unfold JsSet.toArray.
  - apply bool_decide_fold_delete.
  - rewrite bool_decide_fold_add, negb_orb. reflexivity.
Qed.

Lemma after_set : after T_set = ONLY_IN ids.
Proof. by rewrite hookStep_selection. Qed.

Lemma rowRangeToIds_after (selectionType : SelectionType) :
  rowRangeToIds
    (render records total (hookStep records total selectionType (Some range) stored))
    range = ids.
Proof. reflexivity. Qed.

Lemma selection_after (selectionType : SelectionType) :
  selection
    (render records total (hookStep records total selectionType (Some range) stored))
  = after selectionType.
Proof. reflexivity. Qed.
End Membership.

(** X1: After add of a range an id is selected exactly when it was selected
    before or the range resolves it, in both variants. *)
Theorem add_membership {T} `{HasId T} (records : list (Loadable T))
    (total : Loadable Z) (range : Z * Z) (stored : Settings) (k : Z) :
  isSelectedId
    (storedSelection (hookStep records total T_add (Some range) stored)) k
  = isSelectedId (storedSelection stored) k
    || bool_decide (k ∈ rowRangeToIds (render records total stored) range).
Proof. apply after_add_isSelectedId. Qed.

(** X2: After remove of a range an id is selected exactly when it was selected
    before and the range does not resolve it, in both variants. *)
Theorem remove_membership {T} `{HasId T} (records : list (Loadable T))
    (total : Loadable Z) (range : Z * Z) (stored : Settings) (k : Z) :
  isSelectedId
    (storedSelection (hookStep records total T_remove (Some range) stored)) k
  = isSelectedId (storedSelection stored) k
    && negb (bool_decide (k ∈ rowRangeToIds (render records total stored) range)).
Proof. apply after_remove_isSelectedId. Qed.

(** X3: Right after add or set of a range, [isRangeSelected] of that range is
    true; right after remove it is true only when the range resolves no id. *)
Theorem isRangeSelected_after_gesture {T} `{HasId T}
    (records : list (Loadable T)) (total : Loadable Z) (range : Z * Z)
    (stored : Settings) :
  let after selectionType :=
    render records total (hookStep records total selectionType (Some range) stored) in
  isRangeSelected (after T_add) range = true
  ∧ isRangeSelected (after T_set) range = true
  ∧ isRangeSelected (after T_remove) range
    = bool_decide (rowRangeToIds (render records total stored) range = []).
Proof.
  simpl. rewrite !isRangeSelected_forallb, !rowRangeToIds_after, !selection_after.
  set (ids := rowRangeToIds (render records total stored) range).
  split; [| split].
  - apply forallb_forall. intros k Hk. rewrite after_add_isSelectedId.
    fold ids. rewrite (bool_decide_eq_true_2 (k ∈ ids)) by by apply list_elem_of_In.
    apply orb_true_r.
  - rewrite after_set. fold ids. apply forallb_forall. intros k Hk.
    by apply bool_decide_eq_true_2, list_elem_of_In.
  - destruct ids as [| k ids'] eqn:E; [done |].
    rewrite (bool_decide_eq_false_2 (k :: ids' = [])) by done.
    cbn [forallb]. rewrite after_remove_isSelectedId. fold ids. rewrite E.
    rewrite (bool_decide_eq_true_2 (k ∈ k :: ids')) by left.
    by rewrite andb_false_r.
Qed.

(** ** The ids a range resolves *)

Lemma loaded_app {T} (a b : list (Loadable T)) :
  Loadable.loaded (a ++ b) = Loadable.loaded a ++ Loadable.loaded b.
Proof.
  unfold Loadable.loaded. induction a as [| [d |] a IH]; simpl; [done | | done].
  by rewrite IH.
Qed.

Lemma loadedIds_app {T} `{HasId T} (a b : list (Loadable T)) :
  loadedIds (a ++ b) = loadedIds a ++ loadedIds b.
Proof. unfold loadedIds. by rewrite loaded_app, map_app. Qed.

Lemma length_loaded {T} (a : list (Loadable T)) :
  (length (Loadable.loaded a) ≤ length a)%nat.
Proof.
  unfold Loadable.loaded. induction a as [| [d |] a IH]; simpl; lia.
Qed.

Lemma NoDup_loadedIds_slice {T} `{HasId T} (a : list (Loadable T)) (lo hi : Z) :
  NoDup (loadedIds a) → NoDup (loadedIds (slice a lo hi)).
Proof.
  unfold slice. cbv zeta.
  generalize (Z.to_nat (relativeIndex (Z.of_nat (length a)) hi
                        - relativeIndex (Z.of_nat (length a)) lo)).
  generalize (Z.to_nat (relativeIndex (Z.of_nat (length a)) lo)).
  intros from count Hnd.
  rewrite <- (take_drop from a), loadedIds_app in Hnd.
  apply NoDup_app in Hnd as (_ & _ & Hnd).
  rewrite <- (take_drop count (drop from a)), loadedIds_app in Hnd.
  by apply NoDup_app in Hnd as (Hnd & _ & _).
Qed.

Lemma NoDup_rowRangeToIds {T} `{HasId T} (config : SelectionConfig T)
    (range : Z * Z) :
  NoDup (loadedIds (records config)) → NoDup (rowRangeToIds config range).
Proof. apply NoDup_loadedIds_slice. Qed.

Lemma slice_whole {A} (a : list A) (hi : Z) :
  Z.of_nat (length a) <= hi → slice a 0 hi = a.
Proof.
  intros Hhi. unfold slice, relativeIndex. simpl.
  destruct (Z.ltb_spec hi 0); [lia |].
  rewrite Z.min_r, Z.min_l, Z.sub_0_r, Nat2Z.id by lia.
  simpl. by rewrite firstn_all.
Qed.

Lemma length_slice {A} (a : list A) (lo hi : Z) :
  0 <= lo → 0 <= hi → Z.of_nat (length (slice a lo hi)) <= Z.max 0 (hi - lo).
Proof.
  intros Hlo Hhi. unfold slice, relativeIndex. cbv zeta.
  destruct (Z.ltb_spec lo 0), (Z.ltb_spec hi 0); try lia.
  rewrite length_take, length_drop. lia.
Qed.

(** X4: A range [[lo, hi)] with non-negative bounds resolves at most [hi - lo]
    ids, and a range from 0 to the end of the window or past it resolves the
    ids of all loaded records, in window order. *)
Theorem rowRangeToIds_bounds {T} `{HasId T} (config : SelectionConfig T)
    (lo hi : Z) :
  0 <= lo → 0 <= hi →
  Z.of_nat (length (rowRangeToIds config (lo, hi))) <= Z.max 0 (hi - lo)
  ∧ (Z.of_nat (length (records config)) <= hi →
     rowRangeToIds config (0, hi) = loadedIds (records config)).
Proof.
  intros Hlo Hhi. split.
  - unfold rowRangeToIds. simpl. rewrite length_map.
    pose proof (length_loaded (slice (records config) lo hi)).
    pose proof (length_slice (records config) lo hi Hlo Hhi). lia.
  - intros Hlen. unfold rowRangeToIds. simpl. by rewrite slice_whole.
Qed.

Lemma rowRangeToIds_bounds_witness :
  Z.of_nat
    (length (rowRangeToIds (render window5 (Loaded 5) ∅) (1, 3))) <= Z.max 0 (3 - 1).
Proof.
  apply (rowRangeToIds_bounds (render window5 (Loaded 5) ∅) 1 3); lia.
Defined.

(** ** The stored array of ids *)

(** X5: Over a window whose loaded records have pairwise distinct ids, every
    gesture that commits writes an array of ids without repetition, whatever
    the prior state held. *)
Theorem committed_ids_NoDup {T} `{HasId T} (config : SelectionConfig T)
    (selectionType : SelectionType) (range : option (Z * Z)) (s : SelectionState) :
  NoDup (loadedIds (records config)) →
  newSettings config selectionType range = Some s →
  NoDup (trackedIds s).
Proof.
  intros Hnd. unfold newSettings.
  destruct selectionType, range as [r |]; try discriminate;
    intros [= <-]; try apply NoDup_nil_2.
  - destruct (selection config); simpl; unfold JsSet.toArray;
      [apply JsSetFacts.NoDup_fold_add | apply JsSetFacts.NoDup_fold_delete];
      apply JsSetFacts.NoDup_new.
  - destruct (selection config); simpl; unfold JsSet.toArray;
      [apply JsSetFacts.NoDup_fold_delete | apply JsSetFacts.NoDup_fold_add];
      apply JsSetFacts.NoDup_new.
  - simpl. by apply NoDup_rowRangeToIds.
Qed.

Lemma committed_ids_NoDup_witness :
  NoDup (trackedIds (ONLY_IN [10; 11; 12])).
Proof.
  apply (committed_ids_NoDup
           (render window5 (Loaded 5) (selectionUpdate (ONLY_IN [10; 10])))
           T_add (Some (1, 3))).
  - apply (bool_decide_unpack (NoDup _)). vm_compute. exact I.
  - reflexivity.
Defined.

(** ** How a gesture moves the size *)

Module JsSetSize.
Import JsSet.

Lemma length_add (s : t) x :
  (length s ≤ length (add s x) ≤ S (length s))%nat.
Proof.
  unfold add. destruct (has s x); [lia |]. rewrite length_app. simpl. lia.
Qed.

Lemma length_fold_add (a : list Z) (s : t) :
  (length s ≤ length (fold_left add a s) ≤ length s + length a)%nat.
Proof.
  revert s. induction a as [| x a IH]; intros s; simpl; [lia |].
  pose proof (IH (add s x)). pose proof (length_add s x). lia.
Qed.

Lemma length_delete (s : t) x :
  NoDup s → (length (delete s x) ≤ length s ≤ S (length (delete s x)))%nat.
Proof.
  intros Hs. split; [apply filter_length_le |].
  induction s as [| y s IH]; [simpl; lia |].
  apply NoDup_cons in Hs as [Hy Hs]. unfold delete in *. simpl.
  destruct (Z.eqb_spec y x) as [-> | Hne]; simpl.
  - fold (delete s x). rewrite JsSetFacts.delete_absent by done. lia.
  - specialize (IH Hs). lia.
Qed.

Lemma length_fold_delete (a : list Z) (s : t) :
  NoDup s →
  (length (fold_left delete a s) ≤ length s
   ≤ length (fold_left delete a s) + length a)%nat.
Proof.
  revert s. induction a as [| x a IH]; intros s Hs; simpl; [lia |].
  pose proof (IH (delete s x) (JsSetFacts.NoDup_delete s x Hs)).
  pose proof (length_delete s x Hs). lia.
Qed.
End JsSetSize.

(** X6: From a state whose array of ids has no repetition, add of a range
    raises the size by at most the number of ids the range resolves and never
    lowers it; remove lowers it by at most that number and never raises it.
    This holds in both variants and whether or not the total is loaded. *)
Theorem selectionSize_after_gesture {T} `{HasId T}
    (records : list (Loadable T)) (known : Loadable Z) (range : Z * Z)
    (stored : Settings) :
  NoDup (trackedIds (storedSelection stored)) →
  let size selectionType :=
    selectionSize
      (render records known
         (hookStep records known selectionType (Some range) stored)) in
  let before := selectionSize (render records known stored) in
  let n := Z.of_nat (length (rowRangeToIds (render records known stored) range)) in
  before <= size T_add <= before + n
  ∧ before - n <= size T_remove <= before.
Proof.
  intros Hnd. simpl. unfold selectionSize. rewrite !selection_after.
  rewrite !hookStep_selection. unfold newSettings.
  cbn [default selection render total].
  set (ids := rowRangeToIds (render records known stored) range).
  destruct (storedSelection stored) as [l | l]; simpl in Hnd |- *;
    unfold JsSet.toArray; rewrite !JsSetFacts.new_NoDup by done;
    pose proof (JsSetSize.length_fold_add ids l);
    pose proof (JsSetSize.length_fold_delete ids l Hnd); lia.
Qed.

Lemma selectionSize_after_gesture_witness :
  2 <= selectionSize
         (render window5 (Loaded 5)
            (hookStep window5 (Loaded 5) T_add (Some (0, 2))
               (selectionUpdate (ONLY_IN [10; 13]))))
    <= 2 + 2.
Proof.
  assert (Hnd : NoDup (trackedIds (storedSelection (selectionUpdate (ONLY_IN [10; 13]))))).
  { apply (bool_decide_unpack (NoDup _)). vm_compute. exact I. }
  exact (proj1 (selectionSize_after_gesture window5 (Loaded 5) (0, 2)
                  (selectionUpdate (ONLY_IN [10; 13])) Hnd)).
Defined.

(** ** Gestures that undo each other *)

Lemma fold_add_app (ids : list Z) (s : JsSet.t) :
  ∃ fresh, fold_left JsSet.add ids s = s ++ fresh ∧ ∀ x, x ∈ fresh → x ∈ ids.
Proof.
  revert s. induction ids as [| k ids IH]; intros s; simpl.
  - exists []. by rewrite app_nil_r.
  - destruct (IH (JsSet.add s k)) as (fresh & -> & Hfresh).
    destruct (decide (k ∈ s)) as [Hk | Hk].
    + rewrite JsSetFacts.add_member by done. exists fresh. split; [done |].
      intros x Hx. right. by apply Hfresh.
    + rewrite JsSetFacts.add_fresh by done. exists (k :: fresh).
      rewrite <- app_assoc. split; [done |].
      intros x [-> | Hx]%elem_of_cons; [left | right; by apply Hfresh].
Qed.

Lemma fold_delete_app (ids : list Z) (s s' : JsSet.t) :
  fold_left JsSet.delete ids (s ++ s')
  = fold_left JsSet.delete ids s ++ fold_left JsSet.delete ids s'.
Proof.
  revert s s'. induction ids as [| k ids IH]; intros s s'; simpl; [done |].
  unfold JsSet.delete at 2. rewrite List.filter_app. apply IH.
Qed.

Lemma fold_delete_all (ids : list Z) (s : JsSet.t) :
  (∀ x, x ∈ s → x ∈ ids) → fold_left JsSet.delete ids s = [].
Proof.
  intros Hs. destruct (fold_left JsSet.delete ids s) as [| x l] eqn:E; [done |].
  assert (Hx : x ∈ fold_left JsSet.delete ids s) by (rewrite E; left).
  apply JsSetFacts.elem_of_fold_delete in Hx as [Hx Hout].
  by destruct Hout; apply Hs.
Qed.

Lemma fold_delete_fold_add (ids l : list Z) :
  NoDup l → (∀ k, k ∈ ids → k ∉ l) →
  fold_left JsSet.delete ids (JsSet.new (fold_left JsSet.add ids (JsSet.new l))) = l.
Proof.
  intros Hnd Hout. rewrite (JsSetFacts.new_NoDup l) by done.
  rewrite JsSetFacts.new_NoDup by by apply JsSetFacts.NoDup_fold_add.
  destruct (fold_add_app ids l) as (fresh & -> & Hfresh).
  rewrite fold_delete_app, (fold_delete_all ids fresh) by done.
  rewrite app_nil_r. by apply JsSetFacts.fold_delete_absent.
Qed.

(** X7: From a state without repeated ids, over a range none of whose ids the
    state tracks: in an [ONLY_IN] state (the rows of the range are not
    selected) add followed by remove of the range gives the state back, and
    in an [ALL_EXCEPT] state (the rows are selected) remove followed by add
    does. *)
Theorem gesture_round_trip {T} `{HasId T}
    (records : list (Loadable T)) (total : Loadable Z) (range : Z * Z)
    (stored : Settings) :
  NoDup (trackedIds (storedSelection stored)) →
  (∀ k, k ∈ rowRangeToIds (render records total stored) range →
        k ∉ trackedIds (storedSelection stored)) →
  let add_ := hookStep records total T_add (Some range) in
  let remove_ := hookStep records total T_remove (Some range) in
  match storedSelection stored with
  | ONLY_IN _ => storedSelection (remove_ (add_ stored)) = storedSelection stored
  | ALL_EXCEPT _ => storedSelection (add_ (remove_ stored)) = storedSelection stored
  end.
Proof.
  intros Hnd Hout. simpl.
  destruct (storedSelection stored) as [l | l] eqn:Hsel.
  - rewrite (hookStep_selection records total T_remove). unfold newSettings.
    cbn [selection render default]. rewrite hookStep_selection.
    unfold newSettings. cbn [selection render default]. rewrite Hsel.
    simpl. unfold JsSet.toArray. f_equal. by apply fold_delete_fold_add.
  - rewrite (hookStep_selection records total T_add). unfold newSettings.
    cbn [selection render default]. rewrite hookStep_selection.
    unfold newSettings. cbn [selection render default]. rewrite Hsel.
    simpl. unfold JsSet.toArray. f_equal. by apply fold_delete_fold_add.
Qed.

Lemma gesture_round_trip_witness :
  let stored := selectionUpdate (ALL_EXCEPT [14]) in
  storedSelection
    (hookStep window5 (Loaded 5) T_add (Some (1, 3))
       (hookStep window5 (Loaded 5) T_remove (Some (1, 3)) stored))
  = ALL_EXCEPT [14].
Proof.
  simpl.
  apply (gesture_round_trip window5 (Loaded 5) (1, 3)
           (selectionUpdate (ALL_EXCEPT [14]))).
  - apply (bool_decide_unpack (NoDup _)). vm_compute. exact I.
  - intros k Hk Hin. vm_compute in Hk, Hin.
    apply list_elem_of_singleton in Hin as ->.
    apply elem_of_cons in Hk as [Hk | Hk]; [discriminate |].
    apply list_elem_of_singleton in Hk. discriminate.
Defined.

(** X8: Over a window whose loaded records have pairwise distinct ids, set of a
    range leaves the state that clearing the selection and then adding the
    range leaves. *)
Theorem set_is_clear_then_add {T} `{HasId T}
    (records : list (Loadable T)) (total : Loadable Z) (range : Z * Z)
    (stored : Settings) :
  NoDup (loadedIds records) →
  storedSelection (hookStep records total T_set (Some range) stored)
  = storedSelection
      (hookStep records total T_add (Some range)
         (hookStep records total T_remove_all None stored)).
Proof.
  intros Hnd. rewrite !hookStep_selection. unfold newSettings.
  cbn [selection render default]. rewrite hookStep_selection. simpl.
  unfold JsSet.toArray. f_equal. symmetry.
  change (fold_left JsSet.add ?ids (JsSet.new [])) with (JsSet.new ids).
  apply JsSetFacts.new_NoDup.
  by apply (NoDup_rowRangeToIds (render records total stored)).
Qed.

Lemma set_is_clear_then_add_witness :
  storedSelection
    (hookStep window5 (Loaded 5) T_set (Some (1, 3)) (selectionUpdate (ALL_EXCEPT [14])))
  = storedSelection
      (hookStep window5 (Loaded 5) T_add (Some (1, 3))
         (hookStep window5 (Loaded 5) T_remove_all None
            (selectionUpdate (ALL_EXCEPT [14])))).
Proof.
  apply (set_is_clear_then_add window5 (Loaded 5) (1, 3)
           (selectionUpdate (ALL_EXCEPT [14]))).
  apply (bool_decide_unpack (NoDup _)). vm_compute. exact I.
Defined.

(** ** What the projection holds *)

(** X9: For an [ONLY_IN] state over a window with pairwise distinct ids, the
    projected rows are exactly the positions that hold a loaded record whose
    id is listed; a listed id that the window has not loaded projects
    nothing. *)
Theorem dataGridSelection_ONLY_IN {T} `{HasId T}
    (records : list (Loadable T)) (selections : list Z) (known : Loadable Z)
    (upd : Settings → Settings → Settings) (p : Z) :
  NoDup (loadedIds records) →
  CompactSelection.hasIndex
    (rows (dataGridSelection
             {| records := records; selection := ONLY_IN selections;
                total := known; updateSettings := upd |})) p = true
  ↔ 0 <= p ∧ ∃ d, records !! Z.to_nat p = Some (Loaded d) ∧ id d ∈ selections.
Proof.
  intros Hnd. unfold dataGridSelection. cbn [selection rows].
  rewrite hasIndex_fold_add. split.
  - intros [Hp | (k & v & Hk & Hv & <-)]; [done |].
    apply loadedRecordIdMap_sound in Hv as (Hpos & Hv & <-).
    split; [done |]. by exists (record v).
  - intros (Hpos & d & Hd & Hin). right.
    exists (id d), {| record := d; index := p |}. split; [done |].
    split; [| done]. by apply loadedRecordIdMap_complete.
Qed.

Lemma dataGridSelection_ONLY_IN_witness :
  CompactSelection.hasIndex
    (rows (dataGridSelection
             {| records := window5; selection := ONLY_IN [12; 99];
                total := Loaded 5; updateSettings := setPartial |})) 2 = true
  ↔ 0 <= 2 ∧ ∃ d, window5 !! Z.to_nat 2 = Some (Loaded d) ∧ id d ∈ [12; 99].
Proof.
  apply (dataGridSelection_ONLY_IN window5 [12; 99] (Loaded 5) setPartial 2).
  apply (bool_decide_unpack (NoDup _)). vm_compute. exact I.
Defined.

(** X10: For an [ALL_EXCEPT] state over a window with pairwise distinct ids, no
    projected row lies at or past the total (1 when the total is not loaded),
    and no projected row holds a loaded record whose id is excluded. *)
Theorem dataGridSelection_ALL_EXCEPT {T} `{HasId T}
    (records : list (Loadable T)) (exclusions : list Z) (known : Loadable Z)
    (upd : Settings → Settings → Settings) (p : Z) :
  NoDup (loadedIds records) →
  CompactSelection.hasIndex
    (rows (dataGridSelection
             {| records := records; selection := ALL_EXCEPT exclusions;
                total := known; updateSettings := upd |})) p = true →
  0 <= p < Loadable.getOrElse known 1
  ∧ ∀ d, records !! Z.to_nat p = Some (Loaded d) → id d ∉ exclusions.
Proof.
  intros Hnd. unfold dataGridSelection. cbn [selection rows total].
  rewrite hasIndex_fold_remove, CompactSelectionFacts.hasIndex_add. simpl.
  rewrite CompactSelectionFacts.inSlice_true. simpl.
  intros [Hp Hrows]. split; [lia |]. intros d Hd Hin.
  apply (Hrows (id d) {| record := d; index := p |}); [done | | done].
  apply loadedRecordIdMap_complete; [done | lia | done].
Qed.

Lemma dataGridSelection_ALL_EXCEPT_witness :
  0 <= 2 < Loadable.getOrElse (Loaded 5) 1
  ∧ ∀ d, window5 !! Z.to_nat 2 = Some (Loaded d) → id d ∉ [11].
Proof.
  apply (dataGridSelection_ALL_EXCEPT window5 [11] (Loaded 5) setPartial 2).
  - apply (bool_decide_unpack (NoDup _)). vm_compute. exact I.
  - reflexivity.
Defined.

Lemma NoDup_map_filter {A} (f : A → Z) (g : A → bool) (l : list A) :
  NoDup (map f l) → NoDup (map f (List.filter g l)).
Proof.
  induction l as [| x l IH]; simpl; [done |].
  intros [Hx Hl]%NoDup_cons. destruct (g x); simpl; [| by apply IH].
  apply NoDup_cons. split; [| by apply IH].
  intros Hin. apply Hx. apply list_elem_of_fmap in Hin as (y & -> & Hy).
  apply list_elem_of_fmap. exists y. split; [done |].
  apply list_elem_of_In, filter_In in Hy as [Hy _]. by apply list_elem_of_In.
Qed.

(** X11: For an [ONLY_IN] state over a window with pairwise distinct ids, the
    loaded selected records are never more than the reported size, and
    their ids are ids the state lists. *)
Theorem loadedSelectedRecords_count {T} `{HasId T}
    (records : list (Loadable T)) (selections : list Z) (known : Loadable Z)
    (upd : Settings → Settings → Settings) :
  NoDup (loadedIds records) →
  let config := {| records := records; selection := ONLY_IN selections;
                   total := known; updateSettings := upd |} in
  Z.of_nat (length (loadedSelectedRecords config)) <= selectionSize config
  ∧ ∀ k, k ∈ loadedSelectedRecordIds config → k ∈ selections.
Proof.
  intros Hnd. simpl.
  assert (Hin : ∀ k,
             k ∈ loadedSelectedRecordIds
                   {| records := records; selection := ONLY_IN selections;
                      total := known; updateSettings := upd |} →
             k ∈ selections).
  { intros k Hk. unfold loadedSelectedRecordIds, loadedSelectedRecords in Hk.
    rewrite filterNotLoaded_filter in Hk.
    apply list_elem_of_fmap in Hk as (d & -> & Hd).
    apply list_elem_of_In, filter_In in Hd as [_ Hd].
    cbv beta in Hd. unfold selectedRecordIdSet in Hd. cbn [selection] in Hd.
    by rewrite JsSetFacts.has_true, JsSetFacts.elem_of_new in Hd. }
  split; [| done].
  unfold selectionSize. cbn [selection]. apply inj_le.
  rewrite <- (length_map id). apply submseteq_length, NoDup_submseteq; [| done].
  unfold loadedSelectedRecords. rewrite filterNotLoaded_filter.
  by apply NoDup_map_filter.
Qed.

Lemma loadedSelectedRecords_count_witness :
  Z.of_nat
    (length (loadedSelectedRecords
               {| records := window5; selection := ONLY_IN [12; 99];
                  total := Loaded 5; updateSettings := setPartial |}))
  <= 2.
Proof.
  apply (loadedSelectedRecords_count window5 [12; 99] (Loaded 5) setPartial).
  apply (bool_decide_unpack (NoDup _)). vm_compute. exact I.
Defined.

(** * The page [FlatRuns] *)

(** ** Insertion-ordered maps *)

Module JsMapFacts.
Section JsMapFacts.
Context {V : Type}.
Implicit Types (m : JsMap.t V) (k : Z) (v : V).

Lemma get_set m k v k' :
  JsMap.get (JsMap.set m k v) k' = if k =? k' then Some v else JsMap.get m k'.
Proof.
  induction m as [| [k0 v0] m IH]; simpl.
  - reflexivity.
  - destruct (Z.eqb_spec k0 k) as [-> | Hne]; simpl.
    + by destruct (k =? k').
    + rewrite IH. destruct (Z.eqb_spec k0 k') as [-> | Hne'].
      * by rewrite (proj2 (Z.eqb_neq k k')).
      * reflexivity.
Qed.

Lemma elem_of_keys_set m k v k' :
  k' ∈ JsMap.keys (JsMap.set m k v) ↔ k' = k ∨ k' ∈ JsMap.keys m.
Proof.
  unfold JsMap.keys. induction m as [| [k0 v0] m IH]; simpl.
  - rewrite list_elem_of_singleton, elem_of_nil. tauto.
  - destruct (Z.eqb_spec k0 k) as [-> | Hne]; simpl.
    + rewrite !elem_of_cons. tauto.
    + rewrite !elem_of_cons, IH. tauto.
Qed.

Lemma NoDup_keys_set m k v :
  NoDup (JsMap.keys m) → NoDup (JsMap.keys (JsMap.set m k v)).
Proof.
  unfold JsMap.keys. induction m as [| [k0 v0] m IH]; simpl; intros Hm.
  - apply NoDup_singleton.
  - apply NoDup_cons in Hm as [Hk0 Hm].
    destruct (Z.eqb_spec k0 k) as [-> | Hne]; simpl.
    + by apply NoDup_cons.
    + apply NoDup_cons. split; [| by apply IH].
      intros Hin. apply (elem_of_keys_set m k v k0) in Hin as [-> | Hin]; done.
Qed.

Lemma get_None m k : k ∉ JsMap.keys m → JsMap.get m k = None.
Proof.
  unfold JsMap.keys. induction m as [| [k0 v0] m IH]; simpl; [done |].
  intros [Hne Hk]%not_elem_of_cons.
  destruct (Z.eqb_spec k0 k) as [-> | _]; [done | by apply IH].
Qed.

Lemma elem_of_get m k v :
  NoDup (JsMap.keys m) → (k, v) ∈ m ↔ JsMap.get m k = Some v.
Proof.
  unfold JsMap.keys. induction m as [| [k0 v0] m IH]; simpl; intros Hm.
  - by rewrite elem_of_nil.
  - apply NoDup_cons in Hm as [Hk0 Hm]. rewrite elem_of_cons, (IH Hm).
    destruct (Z.eqb_spec k0 k) as [-> | Hne].
    + rewrite (get_None m k Hk0). split.
      * intros [[= ->] | ?]; done.
      * intros [= ->]. by left.
    + split; [intros [[= ? ?] | ?]; done | by right].
Qed.

Lemma get_all_None m : (∀ k, JsMap.get m k = None) → m = [].
Proof.
  destruct m as [| [k0 v0] m]; [done |]. intros Hm. specialize (Hm k0).
  simpl in Hm. by rewrite Z.eqb_refl in Hm.
Qed.
End JsMapFacts.
End JsMapFacts.

(** ** The page's own selected runs and projection *)

Section PageSelection.
Context {FlatRun : Type} `{HasId FlatRun}.
Variable selectedIdSet : JsSet.t.

(** The loop of the page and the loop of the hook's map, side by side. *)
Lemma selectRun_tracks (runs : list (Loadable FlatRun)) (i0 : Z)
    (arr : list FlatRun) jm gm :
  tracks selectedIdSet jm gm → NoDup (JsMap.keys jm) →
  let out := forEachIndexed (FlatRunsPage.selectRun selectedIdSet) runs i0 (arr, jm) in
  out.1 = arr ++ List.filter (λ d, JsSet.has selectedIdSet (id d)) (Loadable.loaded runs)
  ∧ tracks selectedIdSet out.2 (forEachIndexed setRecord runs i0 gm)
  ∧ NoDup (JsMap.keys out.2).
Proof.
  revert i0 arr jm gm. induction runs as [| [d |] runs IH];
    intros i0 arr jm gm Htr Hnd; simpl.
  - by rewrite app_nil_r.
  - destruct (JsSet.has selectedIdSet (id d)) eqn:Hd.
    + specialize (IH (i0 + 1) (arr ++ [d])
                    (JsMap.set jm (id d) {| record := d; index := i0 |})
                    (<[id d := {| record := d; index := i0 |}]> gm)).
      destruct IH as (Harr & Htr' & Hnd').
      * intros k. rewrite JsMapFacts.get_set, Htr.
        destruct (Z.eqb_spec (id d) k) as [<- | Hne].
        -- by rewrite Hd, lookup_insert_eq.
        -- by rewrite lookup_insert_ne.
      * by apply JsMapFacts.NoDup_keys_set.
      * split; [| done]. unfold Loadable.loaded in *. simpl.
        rewrite Harr, <- app_assoc. reflexivity.
    + specialize (IH (i0 + 1) arr jm
                    (<[id d := {| record := d; index := i0 |}]> gm)).
      destruct IH as (Harr & Htr' & Hnd'); [| done |].
      * intros k. rewrite Htr. destruct (JsSet.has selectedIdSet k) eqn:Hk; [| done].
        rewrite lookup_insert_ne; [done |]. congruence.
      * split; [| done]. unfold Loadable.loaded in *. by simpl.
  - by apply IH.
Qed.
End PageSelection.

Lemma loadedSelected_tracks {FlatRun} `{HasId FlatRun}
    (ids : list Z) (runs : list (Loadable FlatRun)) :
  let out := forEachIndexed (FlatRunsPage.selectRun (JsSet.new ids)) runs 0 ([], []) in
  out.1 = List.filter (λ d, bool_decide (id d ∈ ids)) (Loadable.loaded runs)
  ∧ tracks (JsSet.new ids) out.2 (forEachIndexed setRecord runs 0 ∅)
  ∧ NoDup (JsMap.keys out.2).
Proof.
  cbv zeta.
  destruct (selectRun_tracks (JsSet.new ids) runs 0 [] [] ∅) as (Harr & Htr & Hnd).
  - intros k. simpl. by destruct (JsSet.has _ _).
  - apply NoDup_nil_2.
  - cbv zeta in Harr, Htr, Hnd. split; [| done].
    etrans; [exact Harr |]. simpl.
    apply List.filter_ext. intros d. apply JsSetFacts.has_new.
Qed.

Lemma filter_listed_nil {A} (f : A → Z) (l : list A) :
  List.filter (λ d, bool_decide (f d ∈ [])) l = [].
Proof.
  induction l as [| d l IH]; [done |]. cbn [List.filter].
  by rewrite (bool_decide_eq_false_2 (f d ∈ [])) by apply not_elem_of_nil.
Qed.

Lemma loadedSelectedRuns_cases {FlatRun} `{HasId FlatRun}
    (isLoadingSettings : bool) (settings_selection : SelectionState)
    (runs : list (Loadable FlatRun)) :
  FlatRunsPage.loadedSelectedRuns isLoadingSettings settings_selection runs
  = if isLoadingSettings then []
    else
      match settings_selection with
      | ONLY_IN selections =>
          List.filter (λ d, bool_decide (id d ∈ selections)) (Loadable.loaded runs)
      | ALL_EXCEPT _ => []
      end.
Proof.
  unfold FlatRunsPage.loadedSelectedRuns, FlatRunsPage.loadedSelected.
  destruct isLoadingSettings; [done |].
  destruct settings_selection as [selections | exclusions].
  - apply (proj1 (loadedSelected_tracks selections runs)).
  - rewrite (proj1 (loadedSelected_tracks [] runs)).
    apply filter_listed_nil.
Qed.

(** X12: The page's list of loaded selected runs: nothing while the settings
    load and nothing in an [ALL_EXCEPT] state; in an [ONLY_IN] state the
    loaded runs whose id is listed, in window order. *)
Theorem loadedSelectedRuns_spec {FlatRun} `{HasId FlatRun}
    (isLoadingSettings : bool) (settings_selection : SelectionState)
    (runs : list (Loadable FlatRun)) :
  FlatRunsPage.loadedSelectedRuns isLoadingSettings settings_selection runs
  = if isLoadingSettings then []
    else
      match settings_selection with
      | ONLY_IN selections =>
          List.filter (λ d, bool_decide (id d ∈ selections)) (Loadable.loaded runs)
      | ALL_EXCEPT _ => []
      end.
Proof. apply loadedSelectedRuns_cases. Qed.

Lemma hasIndex_fold_add_values {T} (infos : list (IndexedRecord T))
    (sel : CompactSelection.t) (p : Z) :
  CompactSelection.hasIndex
    (fold_left
       (λ rows info, CompactSelection.add rows (CompactSelection.Row (index info)))
       infos sel) p = true
  ↔ CompactSelection.hasIndex sel p = true ∨ ∃ info, info ∈ infos ∧ index info = p.
Proof.
  revert sel. induction infos as [| x infos IH]; intros sel; simpl.
  - split; [by left | intros [? | (info & Hin & _)]; [done |]].
    by apply elem_of_nil in Hin.
  - rewrite IH, CompactSelectionFacts.hasIndex_add, orb_true_iff, inSlice_row.
    split.
    + intros [[Hsel | Hx] | (info & Hin & Hp)]; [by left | |].
      * right. exists x. split; [left | done].
      * right. exists info. split; [by right | done].
    + intros [Hsel | (info & [-> | Hin]%elem_of_cons & Hp)].
      * by left; left.
      * by left; right.
      * right. by exists info.
Qed.

(** X13: In an [ONLY_IN] state the page's own projection and the hook's hold the
    same positions, whatever the window (an id that two loaded runs share is
    projected at its last position by both). *)
Theorem page_selection_agrees {FlatRun} `{HasId FlatRun}
    (runs : list (Loadable FlatRun)) (selections : list Z) (known : Loadable Z)
    (upd : Settings → Settings → Settings) (p : Z) :
  CompactSelection.hasIndex
    (rows (FlatRunsPage.selection false (ONLY_IN selections) runs)) p
  = CompactSelection.hasIndex
      (rows (dataGridSelection
               {| records := runs; selection := ONLY_IN selections;
                  total := known; updateSettings := upd |})) p.
Proof.
  apply eq_true_iff_eq.
  unfold FlatRunsPage.selection, FlatRunsPage.loadedSelectedRunIds,
    FlatRunsPage.loadedSelected, dataGridSelection.
  cbn [rows selection].
  destruct (loadedSelected_tracks selections runs) as (_ & Htr & Hnd).
  cbv zeta in Htr, Hnd.
  rewrite hasIndex_fold_add_values, hasIndex_fold_add.
  unfold JsMap.values. split.
  - intros [Hp | (info & Hin & Hp)]; [by left | right].
    apply list_elem_of_fmap in Hin as ([k v] & -> & Hin).
    apply JsMapFacts.elem_of_get in Hin; [| done]. rewrite Htr in Hin.
    destruct (JsSet.has (JsSet.new selections) k) eqn:Hk; [| done].
    exists k, v. split; [| done].
    by rewrite JsSetFacts.has_true, JsSetFacts.elem_of_new in Hk.
  - intros [Hp | (k & v & Hk & Hv & Hp)]; [by left | right].
    exists v. split; [| done]. apply list_elem_of_fmap. exists (k, v).
    split; [done |]. apply JsMapFacts.elem_of_get; [done |]. rewrite Htr.
    rewrite <- JsSetFacts.elem_of_new, <- JsSetFacts.has_true in Hk.
    by rewrite Hk.
Qed.

(** X14: In an [ALL_EXCEPT] state, the state that add-all leaves, the page
    projects no row and lists no selected run, whatever the window and the
    exclusions. *)
Theorem page_selection_ALL_EXCEPT {FlatRun} `{HasId FlatRun}
    (runs : list (Loadable FlatRun)) (stored : Settings) (exclusions : list Z) :
  storedSelection (FlatRuns.handleSelectionChange runs T_add_all None stored)
  = ALL_EXCEPT []
  ∧ rows (FlatRunsPage.selection false (ALL_EXCEPT exclusions) runs) = []
  ∧ FlatRunsPage.loadedSelectedRuns false (ALL_EXCEPT exclusions) runs = [].
Proof.
  split; [| split].
  - rewrite (FlatRuns_handleSelectionChange_eq runs NotLoaded).
    by rewrite hookStep_selection.
  - unfold FlatRunsPage.selection, FlatRunsPage.loadedSelectedRunIds,
      FlatRunsPage.loadedSelected. cbn [rows].
    set (out := forEachIndexed _ runs 0 _).
    assert (Hjm : out.2 = []); [| by rewrite Hjm].
    destruct (loadedSelected_tracks [] runs) as (_ & Htr & _). cbv zeta in Htr.
    apply JsMapFacts.get_all_None. intros k.
    etrans; [exact (Htr k) | reflexivity].
  - unfold FlatRunsPage.loadedSelectedRuns, FlatRunsPage.loadedSelected.
    rewrite (proj1 (loadedSelected_tracks [] runs)).
    apply filter_listed_nil.
Qed.

(** ** Sort strings *)

Lemma split_nonempty (sep : ascii) (s : string) : split sep s ≠ [].
Proof.
  induction s as [| c s IH]; simpl; [done |].
  destruct (Ascii.eqb c sep); [done |]. by destruct (split sep s).
Qed.

Lemma split_plain (sep : ascii) (s : string) :
  includes s sep = false → split sep s = [s].
Proof.
  induction s as [| c s IH]; simpl; [done |].
  intros [Hc Hs]%orb_false_elim. rewrite Hc, (IH Hs). reflexivity.
Qed.

Lemma split_app_sep (sep : ascii) (s rest : string) :
  includes s sep = false →
  split sep (s +:+ String sep rest) = s :: split sep rest.
Proof.
  induction s as [| c s IH]; simpl.
  - intros _. by rewrite Ascii.eqb_refl.
  - intros [Hc Hs]%orb_false_elim. rewrite Hc, (IH Hs). reflexivity.
Qed.

Lemma split_join (sep : ascii) (a : list string) :
  a ≠ [] → Forall (λ x, includes x sep = false) a →
  split sep (join (String sep EmptyString) a) = a.
Proof.
  induction a as [| x a IH]; [done |]. intros _ [Hx Ha]%Forall_cons.
  destruct a as [| y a]; [by apply split_plain |].
  change (join (String sep EmptyString) (x :: y :: a))
    with (x +:+ String sep (join (String sep EmptyString) (y :: a))).
  rewrite split_app_sep by done. f_equal. by apply IH.
Qed.

Lemma includes_app (s s' : string) (c : ascii) :
  includes (s +:+ s') c = includes s c || includes s' c.
Proof.
  induction s as [| c' s IH]; simpl; [done |]. by rewrite IH, orb_assoc.
Qed.

Lemma join_nonempty (sep x : string) (a : list string) :
  x ≠ EmptyString → join sep (x :: a) ≠ EmptyString.
Proof.
  intros Hx. destruct a as [| y a]; simpl; [done |].
  destruct x; [done | discriminate].
Qed.

Section SortStrings.
Variable EMPTY_SORT : Sort.

Local Abbreviation piece :=
  (λ s : Sort, columnText (column s) +:+ "=" +:+ directionText (direction s)).

Lemma piece_plain (s : Sort) :
  plainSort s = true →
  includes (piece s) "," = false
  ∧ piece s ≠ EmptyString
  ∧ ∃ c d, s = {| column := Some c; direction := Some d |}
           ∧ split "=" (piece s) = [c; directionText (Some d)].
Proof.
  destruct s as [[c |] [d |]]; try discriminate. unfold plainSort. simpl.
  intros [Hcomma Heq]%andb_true_iff.
  apply negb_true_iff in Hcomma, Heq. split; [| split].
  - rewrite includes_app, Hcomma. by destruct d.
  - destruct c; discriminate.
  - exists c, d. split; [done |].
    change (c +:+ "=" +:+ ?t) with (c +:+ String "=" t).
    rewrite split_app_sep by done. by destruct d.
Qed.

(** X15: Printing a non-empty list of sorts whose columns hold no separator and
    parsing the string gives the list back. *)
Theorem parseSortString_makeSortString (sorts_ : list Sort) :
  sorts_ ≠ [] → forallb plainSort sorts_ = true →
  FlatRunsPage.parseSortString EMPTY_SORT (makeSortString sorts_) = sorts_.
Proof.
  intros Hne Hplain. unfold FlatRunsPage.parseSortString, makeSortString.
  rewrite forallb_forall in Hplain.
  rewrite bool_decide_eq_false_2.
  2:{ destruct sorts_ as [| s l]; [done |]. cbn [map].
      apply join_nonempty, (piece_plain s), Hplain. by left. }
  rewrite (split_join "," (map piece sorts_)).
  - clear Hne. induction sorts_ as [| s l IH]; [done |]. cbn [map].
    rewrite IH by (intros x Hx; apply Hplain; by right). f_equal.
    destruct (piece_plain s) as (_ & _ & c & d & -> & Hsplit);
      [apply Hplain; by left |].
    rewrite Hsplit. by destruct d.
  - by destruct sorts_.
  - apply Forall_fmap, Forall_forall. intros s Hs.
    apply (piece_plain s), Hplain. by apply list_elem_of_In.
Qed.

(** X16: Parsing never returns an empty list, and every sort parsed from a
    non-empty string has a column. *)
Theorem parseSortString_shape (sortString : string) :
  FlatRunsPage.parseSortString EMPTY_SORT sortString ≠ []
  ∧ (sortString ≠ EmptyString →
     Forall (λ s, is_Some (column s))
       (FlatRunsPage.parseSortString EMPTY_SORT sortString)).
Proof.
  unfold FlatRunsPage.parseSortString. split.
  - case_bool_decide; [done |].
    pose proof (split_nonempty "," sortString).
    by destruct (split "," sortString).
  - intros Hne. rewrite bool_decide_eq_false_2 by done.
    apply Forall_fmap, Forall_forall. intros c _. simpl.
    pose proof (split_nonempty "=" c).
    destruct (split "=" c) as [| x [| y l]]; [done | by eexists..].
Qed.
End SortStrings.

Lemma parseSortString_makeSortString_witness :
  let sorts_ := [ {| column := Some "id"%string; direction := Some desc |};
                  {| column := Some "state"%string; direction := Some asc |} ] in
  FlatRunsPage.parseSortString {| column := None; direction := None |}
    (makeSortString sorts_) = sorts_.
Proof.
  apply parseSortString_makeSortString; [discriminate | reflexivity].
Defined.

(** ** Handlers that reset the window *)

Lemma storedSelection_setPartial_other (p stored : Settings) :
  p !! "selection"%string = None →
  storedSelection (setPartial p stored) = storedSelection stored.
Proof.
  intros Hp. unfold storedSelection, setPartial. by rewrite lookup_union_r.
Qed.

Lemma setPartial_idem (p stored : Settings) :
  setPartial p (setPartial p stored) = setPartial p stored.
Proof.
  unfold setPartial. apply map_eq. intros k. rewrite !lookup_union.
  by destruct (p !! k), (stored !! k).
Qed.






(** X18: A change to another page with a negative page size throws after the
    page limit has been stored: the window and the page number are the old
    ones. *)
Theorem onPageChange_negative_size {FlatRun} `{HasId FlatRun}
    (cPage cPageSize : Z) (st : PageState FlatRun) :
  cPageSize < 0 → cPage - 1 ≠ page st →
  ∃ st',
    FlatRunsPage.onPageChange cPage cPageSize st = RangeError st'
    ∧ stored st' !! "pageLimit"%string = Some (VNumber cPageSize)
    ∧ runs st' = runs st
    ∧ page st' = page st.
Proof.
  intros Hneg Hpage. unfold FlatRunsPage.onPageChange.
  rewrite bool_decide_eq_true_2 by done.
  destruct (Z.ltb_spec cPageSize 0) as [_ | Hpos]; [| lia].
  eexists. split; [reflexivity |]. cbn [stored runs page].
  split; [apply lookup_union_Some_l, lookup_singleton_eq | done].
Qed.

Lemma onPageChange_negative_size_witness :
  ∃ st',
    FlatRunsPage.onPageChange 3 (-1)
      {| stored := ∅; runs := window5; page := 0; sorts := []; isLoading := false |}
    = RangeError st'
    ∧ runs st' = window5.
Proof.
  destruct (onPageChange_negative_size 3 (-1)
              {| stored := ∅; runs := window5; page := 0; sorts := [];
                 isLoading := false |})
    as (st' & Hret & _ & Hruns & _); [lia | discriminate |].
  by exists st'.
Defined.

(** X19: A change of the filter form resets the page to 0 and the window to 100
    pending slots.  With the form set loaded it stores the filter set and the
    default empty selection and leaves every other stored field; with the
    form set not loaded the stored settings, and so the selection, are
    kept. *)
Theorem onFilterChange_spec {FlatRun} `{HasId FlatRun}
    (formset : Loadable string) (st : PageState FlatRun) :
  let st' := FlatRunsPage.onFilterChange formset st in
  page st' = 0
  ∧ runs st' = replicate 100 NotLoaded
  ∧ isLoading st' = true
  ∧ match formset with
    | Loaded formSet =>
        stored st' !! "filterset"%string = Some (VString formSet)
        ∧ storedSelection (stored st') = DEFAULT_SELECTION
        ∧ ∀ k, k ≠ "filterset"%string → k ≠ "selection"%string →
               stored st' !! k = stored st !! k
    | NotLoaded => stored st' = stored st
    end.
Proof.
  destruct formset as [formSet |]; simpl; repeat split.
  - apply lookup_union_Some_l, lookup_union_Some_l, lookup_singleton_eq.
  - unfold storedSelection, FlatRuns.updateSettings, setPartial.
    rewrite !lookup_union, lookup_singleton_ne, lookup_singleton_eq by done.
    by destruct (stored st !! "selection"%string).
  - intros k Hf Hs. unfold FlatRuns.updateSettings, setPartial.
    rewrite !lookup_union, !lookup_singleton_ne by done.
    by destruct (stored st !! k).
Qed.

Lemma handleSortChange_cases {FlatRun} `{HasId FlatRun}
    (sorts_ : list Sort) (st : PageState FlatRun) :
  let newSortString := makeSortString (List.filter validSort_is sorts_) in
  let stored' :=
    setPartial {[ "sortString"%string := VString newSortString ]} (stored st) in
  (newSortString = FlatRunsPage.sortString st
   ∧ FlatRunsPage.handleSortChange sorts_ st
     = {| stored := stored'; runs := runs st; page := page st;
          sorts := sorts_; isLoading := isLoading st |})
  ∨ (newSortString ≠ FlatRunsPage.sortString st
     ∧ FlatRunsPage.handleSortChange sorts_ st
       = {| stored := stored'; runs := replicate 100 NotLoaded; page := 0;
            sorts := sorts_; isLoading := true |}).
Proof.
  cbv zeta. unfold FlatRunsPage.handleSortChange.
  case_bool_decide as Hne; [by right |]. left. split; [| done].
  by destruct (decide (makeSortString (List.filter validSort_is sorts_)
                       = FlatRunsPage.sortString st)).
Qed.

(** X20: A change of sorts keeps the selection.  When the valid sorts print to
    the current sort string the window and the page are kept; otherwise the
    page is reset to 0 and the window to 100 pending slots.  The stored sort
    string is the one of the new sorts, and the same change applied again
    changes nothing. *)
Theorem handleSortChange_spec {FlatRun} `{HasId FlatRun}
    (sorts_ : list Sort) (st : PageState FlatRun) :
  let st' := FlatRunsPage.handleSortChange sorts_ st in
  let newSortString := makeSortString (List.filter validSort_is sorts_) in
  storedSelection (stored st') = storedSelection (stored st)
  ∧ stored st' !! "sortString"%string = Some (VString newSortString)
  ∧ FlatRunsPage.sortString st' = newSortString
  ∧ (newSortString = FlatRunsPage.sortString st →
     runs st' = runs st ∧ page st' = page st ∧ isLoading st' = isLoading st)
  ∧ (newSortString ≠ FlatRunsPage.sortString st →
     runs st' = replicate 100 NotLoaded ∧ page st' = 0 ∧ isLoading st' = true)
  ∧ FlatRunsPage.handleSortChange sorts_ st' = st'.
Proof.
  cbv zeta.
  set (new := makeSortString (List.filter validSort_is sorts_)).
  assert (Hagain : ∀ st1 : PageState FlatRun,
             sorts st1 = sorts_ →
             stored st1 = setPartial {[ "sortString"%string := VString new ]} (stored st) →
             FlatRunsPage.handleSortChange sorts_ st1 = st1).
  { intros st1 Hsorts Hstored.
    destruct (handleSortChange_cases sorts_ st1) as [[_ ->] | [Hne _]].
    - fold new. rewrite Hstored, setPartial_idem, <- Hstored, <- Hsorts.
      by destruct st1.
    - exfalso. apply Hne. unfold FlatRunsPage.sortString. by rewrite Hsorts. }
  destruct (handleSortChange_cases sorts_ st) as [[Heq ->] | [Hne ->]];
    fold new in Heq || fold new in Hne; fold new; cbn [stored runs page isLoading];
    (split; [by apply storedSelection_setPartial_other |]);
    (split; [apply lookup_union_Some_l, lookup_singleton_eq |]);
    (split; [reflexivity |]);
    (split; [done |]);
    (split; [done |]);
    by apply Hagain.
Qed.
